(** * Cast receiver: pairing protocol and slideshow generator

    A shallow embedding of the cast receiver's pairing services
    ([register], [advertiseCode], [getCastData]) and of its rendering
    services ([storeCastData], [readCastData], [renderableImageURLs],
    [getEncryptedCollectionFiles], [decryptEnteFile],
    [isFileEligibleForCast]).

    Asynchronous calls are sequential in the source (every call is
    awaited), so they are modelled by explicit state passing over a world
    type; a call that may throw returns a [result]. *)

From Stdlib Require Import ZArith Ascii String.
From stdpp Require Import gmap strings list pretty sorting.

Open Scope string_scope.
Open Scope list_scope.
Open Scope nat_scope.

(** ** JavaScript preliminaries *)

(** The outcome of a call that may throw. *)
Inductive result (A : Type) : Type :=
  | Ok (a : A)
  | Throw (e : string).
Arguments Ok {A} a.
Arguments Throw {A} e.

#[global] Instance result_ret : MRet result := fun A a => Ok a.

#[global] Instance result_bind : MBind result := fun A B k r =>
  match r with
  | Ok a => k a
  | Throw e => Throw e
  end.

Definition is_ok {A} (r : result A) : bool :=
  match r with Ok _ => true | Throw _ => false end.

(** A JavaScript value, as far as the services inspect one ([unknown]
    payloads and message data). Object properties are kept in insertion
    order, which is the order [for .. in] visits them. Of the numbers
    it has the integers, and of the objects the plain ones (no arrays). *)
#[warnings="-register-all"]
Inductive JsValue : Type :=
  | JUndefined
  | JNull
  | JBool (b : bool)
  | JNum (n : Z)
  | JStr (s : string)
  | JObj (props : list (string * JsValue)).

(** Truthiness of a value: [undefined], [null], [false], [0] and the empty
    string are falsy. *)
Definition truthy (v : JsValue) : bool :=
  match v with
  | JUndefined | JNull => false
  | JBool b => b
  | JNum n => negb (n =? 0)%Z
  | JStr s => negb (String.eqb s "")
  | JObj _ => true
  end.

(** [typeof v == "object"]: objects and [null]. *)
Definition typeof_object (v : JsValue) : bool :=
  match v with
  | JObj _ | JNull => true
  | _ => false
  end.

(** Property read [o[k]] on an object's own properties. *)
Fixpoint get_prop (k : string) (props : list (string * JsValue)) : JsValue :=
  match props with
  | [] => JUndefined
  | (k', v) :: rest => if String.eqb k k' then v else get_prop k rest
  end.

(** Truthiness of a [string | undefined]. *)
Definition truthy_str (s : option string) : bool :=
  match s with
  | Some s => negb (String.eqb s "")
  | None => false
  end.

(** A [string | undefined] inside a template literal. *)
Definition template (s : option string) : string :=
  match s with
  | Some s => s
  | None => "undefined"
  end.

(** [a != b] on two [string | undefined] values. *)
Definition js_neq (a b : option string) : bool := bool_decide (a ≠ b).

(** ** Pairing *)

Module Pair.

Record Registration := {
  pairingCode : string;
  publicKeyB64 : string;
  privateKeyB64 : string;
}.

(** *** register *)

Record KeyPair := { publicKey : list Z; privateKey : list Z }.

(** What [register] does, in order. A call of
    [castGateway.registerDevice] is in flight between its [CallStart] and
    its [CallEnd]. *)
Inductive RegEvent : Type :=
  | CallStart (publicKeyB64 : string)
  | CallEnd (r : result string)
  | RegLogError (e : string)
  | Wait (ms : Z).

Section Register.

Context {W : Type}.
(** [_sodium.crypto_box_keypair], [toB64], [castGateway.registerDevice]
    and [wait]. *)
Variable generateKeyPair : W → KeyPair * W.
Variable toB64 : list Z → string.
Variable registerDevice : W → string → result string * W.
Variable wait : Z → W → W.

(** The [while (true)] loop; [pairingCode] is the variable of that name
    ([None] while it is unassigned). [fuel] bounds the number of
    iterations run: [None] means the loop is still retrying. *)
Fixpoint register_loop (fuel : nat) (publicKeyB64 : string)
    (pairingCode : option string) (w : W)
    : option string * W * list RegEvent :=
  match fuel with
  | O => (None, w, [])
  | S fuel =>
      let '(r, w) := registerDevice w publicKeyB64 in
      let '(pairingCode, caught) :=
        match r with
        | Ok code => (Some code, [])
        | Throw e => (pairingCode, [RegLogError e])
        end in
      let evs := [CallStart publicKeyB64; CallEnd r] ++ caught in
      if truthy_str pairingCode then (pairingCode, w, evs)
      else
        let w := wait 10000 w in
        let '(res, w, evs') := register_loop fuel publicKeyB64 pairingCode w in
        (res, w, evs ++ Wait 10000 :: evs')
  end.

Definition register (fuel : nat) (w : W)
    : option Registration * W * list RegEvent :=
  let '(keypair, w) := generateKeyPair w in
  let publicKeyB64 := toB64 (publicKey keypair) in
  let privateKeyB64 := toB64 (privateKey keypair) in
  let '(res, w, evs) := register_loop fuel publicKeyB64 None w in
  (match res with
   | Some pairingCode =>
       Some {| pairingCode := pairingCode;
               publicKeyB64 := publicKeyB64;
               privateKeyB64 := privateKeyB64 |}
   | None => None
   end, w, evs).

(** The world in which the [i]-th attempt (counting from 0) is made, when
    no earlier attempt yielded a code, and what that attempt returns. *)
Fixpoint world_at (i : nat) (publicKeyB64 : string) (w : W) : W :=
  match i with
  | O => w
  | S i => world_at i publicKeyB64 (wait 10000 (registerDevice w publicKeyB64).2)
  end.

Definition attempt (i : nat) (publicKeyB64 : string) (w : W) : result string :=
  (registerDevice (world_at i publicKeyB64 w) publicKeyB64).1.

(** An attempt succeeds when it returns a pairing code. *)
Definition succeeds (r : result string) : bool :=
  match r with
  | Ok code => truthy_str (Some code)
  | Throw _ => false
  end.

End Register.

(** Number of calls started, total time waited, and the largest number of
    calls in flight at any point of a trace. *)
Fixpoint calls (evs : list RegEvent) : nat :=
  match evs with
  | [] => 0
  | CallStart _ :: evs => S (calls evs)
  | _ :: evs => calls evs
  end.

Fixpoint waited (evs : list RegEvent) : Z :=
  match evs with
  | [] => 0
  | Wait ms :: evs => ms + waited evs
  | _ :: evs => waited evs
  end.

Fixpoint max_in_flight (cur : nat) (evs : list RegEvent) : nat :=
  match evs with
  | [] => cur
  | CallStart _ :: evs => max_in_flight (S cur) evs
  | CallEnd _ :: evs => cur `max` max_in_flight (pred cur) evs
  | _ :: evs => max_in_flight cur evs
  end.

(** *** getCastData *)

Section GetCastData.

Context {W : Type}.
(** [castGateway.getCastData], [boxSealOpen], [atob] and [JSON.parse]. *)
Variable gateway_getCastData : W → string → result (option string) * W.
Variable boxSealOpen : string → string → string → result string.
Variable atob : string → result string.
Variable JSON_parse : string → result JsValue.

(** [Ok None] is the [undefined] returned while there is no data. *)
Definition getCastData (registration : Registration) (w : W)
    : result (option JsValue) * W :=
  let '(r, w) := gateway_getCastData w (pairingCode registration) in
  (encryptedCastData ← r;
   if negb (truthy_str encryptedCastData) then mret None
   else
     decryptedCastData ← boxSealOpen (default "" encryptedCastData)
                            (publicKeyB64 registration)
                            (privateKeyB64 registration);
     plain ← atob decryptedCastData;
     payload ← JSON_parse plain;
     mret (Some payload),
   w).

End GetCastData.

(** *** advertiseCode *)

Definition namespace : string := "urn:x-cast:pair-request".

Record ListenerProps := { senderId : string; data : JsValue }.

(** What the listener does to the Chromecast context and to the log. *)
Inductive Effect : Type :=
  | LogError (msg : string)
  | Stop
  | SendCustomMessage (ns : string) (sender : string) (code : string).

Definition restart (reason : string) : list Effect :=
  [LogError ("Restarting app because " +:+ reason); Stop].

(** The [collectionID] of a request: the property of that name when the
    data is an object and the property is a string. *)
Definition collectionID_of (data : JsValue) : option string :=
  if truthy data && typeof_object data then
    match data with
    | JObj props =>
        match get_prop "collectionID" props with
        | JStr s => Some s
        | _ => None
        end
    | _ => None
    end
  else None.

(** One call of the listener. [pairingCode] is the callback given to
    [advertiseCode]; [paired] is the captured variable
    [pairedCollectionID]. Returns its new value and the effects. *)
Definition incomingMessageListener (pairingCode : unit → option string)
    (paired : option string) (p : ListenerProps)
    : option string * list Effect :=
  let collectionID := collectionID_of (data p) in
  if truthy_str paired && js_neq paired collectionID then
    (paired,
     restart ("incoming request for a new collection " +:+ template collectionID))
  else
    let paired := collectionID in
    let code := pairingCode tt in
    if negb (truthy_str code) then
      (paired,
       restart "we got a pairing request when refreshing pairing codes")
    else
      (paired,
       [SendCustomMessage namespace (senderId p) (default "" code)]).

#[global] Instance Effect_eq_dec : EqDecision Effect.
Proof. solve_decision. Defined.

Definition stops (effs : list Effect) : bool :=
  bool_decide (Stop ∈ effs).

Definition replies (effs : list Effect) : list (string * string) :=
  omap (fun e => match e with
                 | SendCustomMessage _ to code => Some (to, code)
                 | _ => None
                 end) effs.

(** A session: the listener applied to the requests in arrival order, each
    with the callback as it answers at that moment, until the context is
    stopped. *)
Fixpoint session (paired : option string)
    (reqs : list ((unit → option string) * ListenerProps))
    : option string * list Effect :=
  match reqs with
  | [] => (paired, [])
  | (pairingCode, p) :: rest =>
      let '(paired', effs) := incomingMessageListener pairingCode paired p in
      if stops effs then (paired', effs)
      else
        let '(paired'', effs') := session paired' rest in
        (paired'', effs ++ effs')
  end.

(** A handshake request with the given [collectionID], if any. *)
Definition request (sender : string) (collectionID : option string)
    : ListenerProps :=
  {| senderId := sender;
     data := match collectionID with
             | Some c => JObj [("collectionID", JStr c)]
             | None => JObj []
             end |}.

Definition code_is (code : option string) : unit → option string :=
  fun _ => code.

(** *** A scripted backend

    A backend whose registration call fails a given number of times before
    it yields a code, with a clock that only [wait] advances; and a
    credential endpoint that has a payload or not. *)

Record Backend := {
  failures_left : nat;
  calls_made : nat;
  clock : Z;
}.

Definition scripted_generateKeyPair (w : Backend) : KeyPair * Backend :=
  ({| publicKey := [1; 2; 3]%Z; privateKey := [4; 5; 6]%Z |}, w).

Definition scripted_toB64 (bytes : list Z) : string :=
  foldr (fun b acc => pretty b +:+ "." +:+ acc) "" bytes.

Definition scripted_registerDevice (w : Backend) (publicKeyB64 : string)
    : result string * Backend :=
  match failures_left w with
  | O => (Ok "482913",
          {| failures_left := 0; calls_made := S (calls_made w);
             clock := clock w |})
  | S n => (Throw "network error",
            {| failures_left := n; calls_made := S (calls_made w);
               clock := clock w |})
  end.

Definition scripted_wait (ms : Z) (w : Backend) : Backend :=
  {| failures_left := failures_left w; calls_made := calls_made w;
     clock := (clock w + ms)%Z |}.

Definition scripted_getCastData (payload : option string) (w : Backend)
    (code : string) : result (option string) * Backend :=
  (Ok payload,
   {| failures_left := failures_left w; calls_made := S (calls_made w);
      clock := clock w |}).

(** A toy sealed box: the plaintext behind a tag naming the public key. *)
Definition scripted_boxSealOpen (sealed pub priv : string) : result string :=
  if String.prefix (pub +:+ "|") sealed
  then Ok (String.substring (String.length pub + 1)
             (String.length sealed) sealed)
  else Throw "incorrect key pair for the given ciphertext".

Definition scripted_atob (s : string) : result string := Ok s.

Definition scripted_JSON_parse (s : string) : result JsValue :=
  if String.eqb s "{}" then Ok (JObj [])
  else Throw "SyntaxError: Unexpected token".

(** *** More readings of a registration trace *)

(** The errors logged, and the errors the registration call threw, each
    in order. *)
Definition logged (evs : list RegEvent) : list string :=
  omap (fun e => match e with RegLogError e => Some e | _ => None end) evs.

Definition thrown (evs : list RegEvent) : list string :=
  omap (fun e => match e with CallEnd (Throw e) => Some e | _ => None end) evs.

(** The public keys the registration call was made with. *)
Definition registered (evs : list RegEvent) : list string :=
  omap (fun e => match e with CallStart pk => Some pk | _ => None end) evs.

End Pair.

(** ** Rendering *)

Module Render.

(** *** storeCastData and readCastData *)

Section Store.

(** [Number::toString] of the JavaScript engine, on the numbers a
    [JNum] stands for. It is the engine's and not the program's: the
    decimal digits up to 2^53, rounded digits above, and exponent
    notation from 10^21 on. *)
Variable Number_toString : Z → string.

(** [String(v)], as [localStorage.setItem] applies it to a value: a
    string is stored as it is, a number as the engine prints it, and a
    plain object as ["[object Object]"]. *)
Definition js_toString (v : JsValue) : string :=
  match v with
  | JUndefined => "undefined"
  | JNull => "null"
  | JBool true => "true"
  | JBool false => "false"
  | JNum n => Number_toString n
  | JStr s => s
  | JObj _ => "[object Object]"
  end.

(** [for (const key in payload) localStorage.setItem(key, payload[key])]. *)
Definition setItems (props : list (string * JsValue))
    (localStorage : gmap string string) : gmap string string :=
  foldl (fun ls kv => <[kv.1 := js_toString kv.2]> ls) localStorage props.

Definition storeCastData (payload : JsValue)
    (localStorage : gmap string string) : result (gmap string string) :=
  if negb (truthy payload) || negb (typeof_object payload) then
    Throw "Unexpected cast data"
  else
    match payload with
    | JObj props => Ok (setItems props localStorage)
    | _ => Ok localStorage
    end.

End Store.

Record CastData := { collectionKey : string; castToken : string }.

(** Modelled from the spec: [ensureString] ("@/utils/ensure") is not in
    the source tree. [readCastData] is documented to throw when the
    expected data is not present, and [localStorage.getItem] returns
    [null] for an absent key; so [ensureString] throws on what is not a
    string and returns a string as it is. *)
Definition ensureString (v : option string) : result string :=
  match v with
  | Some s => Ok s
  | None => Throw "Expected a string, instead found null"
  end.

Definition readCastData (localStorage : gmap string string)
    : result CastData :=
  collectionKey ← ensureString (localStorage !! "collectionKey");
  castToken ← ensureString (localStorage !! "castToken");
  mret {| collectionKey := collectionKey; castToken := castToken |}.

(** *** Files *)

(** Modelled from the spec: the [FILE_TYPE] enum ("@/media/file-type") is
    not in the source tree; the spec names image, live-photo and video
    records. *)
Inductive FILE_TYPE : Type := IMAGE | VIDEO | LIVE_PHOTO | OTHERS.

#[global] Instance FILE_TYPE_eq_dec : EqDecision FILE_TYPE.
Proof. solve_decision. Defined.

Record FileAttributes := { encryptedData : string; decryptionHeader : string }.

Record FileInfo := { fileSize : Z }.

Record Metadata := {
  title : string;
  fileType : FILE_TYPE;
  creationTime : Z;
}.

(** A magic metadata blob: [data] is encrypted in an encrypted file and
    of type [D] once decrypted. *)
Record MagicMetadata (D : Type) := { header : string; data : D }.
Arguments header {D} _.
Arguments data {D} _.

Record PublicMagicMetadataProps := {
  editedTime : option Z;
  editedName : option string;
}.

(** The fields of an encrypted file record, with [rest] standing for the
    fields that [decryptEnteFile] carries over unread. *)
Module Enc.
Record File := {
  id : Z;
  encryptedKey : string;
  keyDecryptionNonce : string;
  metadata : FileAttributes;
  magicMetadata : option (MagicMetadata string);
  pubMagicMetadata : option (MagicMetadata string);
  file : FileAttributes;
  info : FileInfo;
  isDeleted : bool;
  updationTime : Z;
}.
End Enc.

Record EnteFile := {
  id : Z;
  key : string;
  metadata : Metadata;
  magicMetadata : option (MagicMetadata JsValue);
  pubMagicMetadata : option (MagicMetadata PublicMagicMetadataProps);
  file : FileAttributes;
  info : FileInfo;
  isDeleted : bool;
  updationTime : Z;
}.

Record DiffResponse := { diff : list Enc.File; hasMore : bool }.

Record Blob := { bytes : list Z; type : string }.

(** *** The platform

    What the rendering services call and do not define: the HTTP service,
    the crypto worker, the media helpers, the clock and the random
    shuffle. [W] is the state of the world those calls read and change.
    [worker.decryptMetadata] returns an untyped value in the source; its
    three uses are told apart here by the type of the field each result
    is assigned to. *)
Class Platform (W : Type) := {
  (* HTTPService.get(`${getEndpoint()}/cast/diff`, { sinceTime }, ...) *)
  HTTPService_get_diff : W → Z → string → result DiffResponse * W;
  (* HTTPService.get(url, null, ...): [resp.data], [None] when undefined *)
  HTTPService_get_file : W → string → string → result (option (list Z)) * W;
  getCastFileURL : Z → string;
  shuffled : W → list Enc.File → list Enc.File * W;
  shuffled_permutation : ∀ w files, (shuffled w files).1 ≡ₚ files;
  Date_now : W → Z;
  wait : Z → W → W;
  (* what happens to the world while the generator is suspended *)
  resumed : W → W;
  decryptB64 : string → string → string → result string;
  decryptMetadata : string → string → string → result Metadata;
  decryptMetadata_magic : string → string → string → result JsValue;
  decryptMetadata_pub :
    string → string → string → result PublicMagicMetadataProps;
  fromB64 : string → result (list Z);
  decryptFile : list Z → list Z → string → result (list Z);
  decodeLivePhoto : string → list Z → result (list Z);
  detectMediaMIMEType : string → list Z → result (option string);
  nameAndExtension : string → string * option string;
  isNonWebImageFileExtension : option string → bool;
}.

(** *** getEncryptedCollectionFiles *)

Section Files.

Context {W : Type} `{Platform W}.

(** The watermark after a page: the largest [updationTime] seen. *)
Definition advance (sinceTime : Z) (diff : list Enc.File) : Z :=
  foldl (fun max file => Z.max max (Enc.updationTime file)) sinceTime diff.

Definition notDeleted (diff : list Enc.File) : list Enc.File :=
  List.filter (fun file => negb (Enc.isDeleted file)) diff.

(** The [do .. while] loop. [fuel] bounds the number of requests: [None]
    means the loop is still asking for pages. The last component lists
    the [sinceTime] of the requests made. *)
Fixpoint getEncryptedCollectionFiles_loop (fuel : nat) (castToken : string)
    (files : list Enc.File) (sinceTime : Z) (w : W)
    : option (result (list Enc.File)) * W * list Z :=
  match fuel with
  | O => (None, w, [])
  | S fuel =>
      let '(resp, w) := HTTPService_get_diff w sinceTime castToken in
      match resp with
      | Throw e => (Some (Throw e), w, [sinceTime])
      | Ok resp =>
          let files := files ++ notDeleted (diff resp) in
          let sinceTime' := advance sinceTime (diff resp) in
          if hasMore resp then
            let '(r, w, asked) :=
              getEncryptedCollectionFiles_loop fuel castToken files
                sinceTime' w in
            (r, w, sinceTime :: asked)
          else (Some (Ok files), w, [sinceTime])
      end
  end.

Definition getEncryptedCollectionFiles (fuel : nat) (castToken : string)
    (w : W) : option (result (list Enc.File)) * W * list Z :=
  getEncryptedCollectionFiles_loop fuel castToken [] 0 w.

(** The server answers the requests made from watermark [sinceTime] on
    with the pages [pages], the last of which is the first to report no
    more pages. *)
Inductive serves (castToken : string) : W → Z → list DiffResponse → W → Prop :=
  | serves_last w sinceTime page w' :
      HTTPService_get_diff w sinceTime castToken = (Ok page, w') →
      hasMore page = false →
      serves castToken w sinceTime [page] w'
  | serves_more w sinceTime page w' pages w'' :
      HTTPService_get_diff w sinceTime castToken = (Ok page, w') →
      hasMore page = true →
      serves castToken w' (advance sinceTime (diff page)) pages w'' →
      serves castToken w sinceTime (page :: pages) w''.

(** The watermarks of the requests that fetch [pages]. *)
Fixpoint watermarks (sinceTime : Z) (pages : list DiffResponse) : list Z :=
  match pages with
  | [] => []
  | page :: pages =>
      sinceTime :: watermarks (advance sinceTime (diff page)) pages
  end.

(** *** decryptEnteFile *)

Definition decryptMagic {D} (decrypt : string → string → string → result D)
    (magicMetadata : option (MagicMetadata string)) (fileKey : string)
    : result (option (MagicMetadata D)) :=
  match magicMetadata with
  | Some mm =>
      if truthy_str (Some (data mm)) then
        d ← decrypt (data mm) (header mm) fileKey;
        mret (Some {| header := header mm; data := d |})
      else mret None
  | None => mret None
  end.

Definition truthy_num (n : option Z) : bool :=
  match n with
  | Some n => negb (n =? 0)%Z
  | None => false
  end.

Definition decryptEnteFile (encryptedFile : Enc.File) (collectionKey : string)
    : result EnteFile :=
  fileKey ← decryptB64 (Enc.encryptedKey encryptedFile)
              (Enc.keyDecryptionNonce encryptedFile) collectionKey;
  fileMetadata ← decryptMetadata
                   (encryptedData (Enc.metadata encryptedFile))
                   (decryptionHeader (Enc.metadata encryptedFile)) fileKey;
  fileMagicMetadata ← decryptMagic decryptMetadata_magic
                        (Enc.magicMetadata encryptedFile) fileKey;
  filePubMagicMetadata ← decryptMagic decryptMetadata_pub
                           (Enc.pubMagicMetadata encryptedFile) fileKey;
  let edited : PublicMagicMetadataProps :=
    match filePubMagicMetadata with
    | Some pub => data pub
    | None => {| editedTime := None; editedName := None |}
    end in
  let creationTime' :=
    if truthy_num (editedTime edited) then default 0%Z (editedTime edited)
    else creationTime fileMetadata in
  let title' :=
    if truthy_str (editedName edited) then default "" (editedName edited)
    else title fileMetadata in
  mret {| id := Enc.id encryptedFile;
          key := fileKey;
          metadata := {| title := title';
                         fileType := fileType fileMetadata;
                         creationTime := creationTime' |};
          magicMetadata := fileMagicMetadata;
          pubMagicMetadata := filePubMagicMetadata;
          file := Enc.file encryptedFile;
          info := Enc.info encryptedFile;
          isDeleted := Enc.isDeleted encryptedFile;
          updationTime := Enc.updationTime encryptedFile |}.

(** *** isFileEligibleForCast *)

Definition isImageOrLivePhoto (file : EnteFile) : bool :=
  let fileType := fileType (metadata file) in
  bool_decide (fileType = IMAGE) || bool_decide (fileType = LIVE_PHOTO).

Definition isFileEligibleForCast (file : EnteFile) : bool :=
  if negb (isImageOrLivePhoto file) then false
  else if (fileSize (info file) >? 100 * 1024 * 1024)%Z then false
  else
    let extension := (nameAndExtension (title (metadata file))).2 in
    if isNonWebImageFileExtension extension then false
    else true.

(** *** createRenderableURL *)

Definition downloadFile (castToken : string) (file : EnteFile) (w : W)
    : result (list Z) * W :=
  if negb (isImageOrLivePhoto file) then
    (Throw "Can only cast images and live photos", w)
  else
    let url := getCastFileURL (id file) in
    let '(resp, w) := HTTPService_get_file w url castToken in
    (resp_data ← resp;
     match resp_data with
     | None => Throw ("Failed to get " +:+ url)
     | Some encrypted =>
         fileHeader ← fromB64 (decryptionHeader (Render.file file));
         decryptFile encrypted fileHeader (key file)
     end,
     w).

Definition renderableImageBlob (castToken : string) (file : EnteFile) (w : W)
    : result Blob * W :=
  let fileName := title (metadata file) in
  let '(blob, w) := downloadFile castToken file w in
  (blob ← blob;
   blob ← (if bool_decide (fileType (metadata file) = LIVE_PHOTO)
           then decodeLivePhoto fileName blob
           else mret blob);
   mimeType ← detectMediaMIMEType fileName blob;
   if negb (truthy_str mimeType) then
     Throw ("Could not detect MIME type for file " +:+ fileName)
   else mret {| bytes := blob; type := default "" mimeType |},
   w).

(** The generator's variables, the world, and the number of object URLs
    the browser has issued so far: [URL.createObjectURL] returns a URL
    it never returned before. *)
Record State := {
  world : W;
  issued : nat;
  previousURLs : list string;
  urls : list string;
  lastYieldTime : Z;
}.

Definition objectURL (n : nat) : string := "blob:" +:+ pretty n.

Definition createRenderableURL (castToken : string) (file : EnteFile)
    (st : State) : result string * State :=
  let '(blob, w) := renderableImageBlob castToken file (world st) in
  match blob with
  | Ok _ =>
      (Ok (objectURL (issued st)),
       {| world := w; issued := S (issued st);
          previousURLs := previousURLs st; urls := urls st;
          lastYieldTime := lastYieldTime st |})
  | Throw e =>
      (Throw e,
       {| world := w; issued := issued st;
          previousURLs := previousURLs st; urls := urls st;
          lastYieldTime := lastYieldTime st |})
  end.

(** *** renderableImageURLs *)

(** What the generator does that its consumer or the browser sees. A
    [Yielded] records the pair and the retention queue at that moment. *)
Inductive Event : Type :=
  | Revoked (url : string)
  | Skipped (e : string)
  | Waited (ms : Z)
  | Yielded (urlPair : string * string) (retained : list string).

Definition slideDuration : Z := 10000.

(** [if (previousURLs.length > 1) URL.revokeObjectURL(previousURLs.shift())]:
    the queue left and the URL revoked. *)
Definition revokeOldest (previousURLs : list string)
    : list string * list Event :=
  if 1 <? length previousURLs then
    match previousURLs with
    | oldest :: rest => (rest, [Revoked oldest])
    | [] => ([], [])
    end
  else (previousURLs, []).

(** The wait that keeps the slide on the screen for the rest of
    [slideDuration]. *)
Definition pace (w : W) (lastYieldTime : Z) : W * list Event :=
  let elapsedTime := (Date_now w - lastYieldTime)%Z in
  if (0 <? elapsedTime)%Z && (elapsedTime <? slideDuration)%Z
  then (wait (slideDuration - elapsedTime) w,
        [Waited (slideDuration - elapsedTime)])
  else (w, []).

(** The body of the [for] loop for one file. The first component is the
    error that leaves the generator, if any; the third is
    [haveEligibleFiles]. *)
Definition forBody (castData : CastData) (st : State)
    (haveEligibleFiles : bool) (encryptedFile : Enc.File)
    : option string * State * bool * list Event :=
  match decryptEnteFile encryptedFile (collectionKey castData) with
  | Throw e => (Some e, st, haveEligibleFiles, [])
  | Ok file =>
      if negb (isFileEligibleForCast file) then
        (None, st, haveEligibleFiles, [])
      else
        let '(created, st) :=
          createRenderableURL (castToken castData) file st in
        match created with
        | Throw e => (None, st, haveEligibleFiles, [Skipped e])
        | Ok created =>
            let urls := urls st ++ [created] in
            let haveEligibleFiles := true in
            let '(previousURLs, revoked) := revokeOldest (previousURLs st) in
            match urls with
            | [] =>
                (Some "Required value was not found",
                 {| world := world st; issued := issued st;
                    previousURLs := previousURLs; urls := [];
                    lastYieldTime := lastYieldTime st |},
                 haveEligibleFiles, revoked)
            | url :: urls =>
                let nextURL := "" in
                let previousURLs := previousURLs ++ [url] in
                let urlPair := (url, nextURL) in
                let '(w, waited) := pace (world st) (lastYieldTime st) in
                (None,
                 {| world := resumed w; issued := issued st;
                    previousURLs := previousURLs; urls := urls;
                    lastYieldTime := Date_now w |},
                 haveEligibleFiles,
                 revoked ++ waited ++ [Yielded urlPair previousURLs])
            end
        end
  end.

Fixpoint forFiles (castData : CastData) (st : State)
    (haveEligibleFiles : bool) (encryptedFiles : list Enc.File)
    : option string * State * bool * list Event :=
  match encryptedFiles with
  | [] => (None, st, haveEligibleFiles, [])
  | encryptedFile :: encryptedFiles =>
      let '(err, st, haveEligibleFiles, evs) :=
        forBody castData st haveEligibleFiles encryptedFile in
      match err with
      | Some e => (Some e, st, haveEligibleFiles, evs)
      | None =>
          let '(err, st, haveEligibleFiles, evs') :=
            forFiles castData st haveEligibleFiles encryptedFiles in
          (err, st, haveEligibleFiles, evs ++ evs')
      end
  end.

(** How far the generator got: it returned, it threw, or it can still be
    resumed when the fuel runs out. *)
Inductive Outcome : Type :=
  | Done
  | Threw (e : string)
  | Suspended.

Definition with_world (w : W) (st : State) : State :=
  {| world := w; issued := issued st; previousURLs := previousURLs st;
     urls := urls st; lastYieldTime := lastYieldTime st |}.

(** One pass: fetch the listing, shuffle it, go through the files.
    [None] as outcome means the pass ended with [haveEligibleFiles] set,
    so that the [while (true)] loop goes around. *)
Definition cycle (pages : nat) (castData : CastData) (st : State)
    : option Outcome * State * list Event :=
  let '(listing, w, _) :=
    getEncryptedCollectionFiles pages (castToken castData) (world st) in
  match listing with
  | None => (Some Suspended, with_world w st, [])
  | Some (Throw e) => (Some (Threw e), with_world w st, [])
  | Some (Ok files) =>
      let '(encryptedFiles, w) := shuffled w files in
      let '(err, st, haveEligibleFiles, evs) :=
        forFiles castData (with_world w st) false encryptedFiles in
      match err with
      | Some e => (Some (Threw e), st, evs)
      | None =>
          if negb haveEligibleFiles then (Some Done, st, evs)
          else (None, st, evs)
      end
  end.

(** The [while (true)] loop, for at most [cycles] passes, each fetching
    the listing in at most [pages] requests. *)
Fixpoint whileTrue (pages cycles : nat) (castData : CastData) (st : State)
    : Outcome * State * list Event :=
  match cycles with
  | O => (Suspended, st, [])
  | S cycles =>
      let '(outcome, st, evs) := cycle pages castData st in
      match outcome with
      | Some outcome => (outcome, st, evs)
      | None =>
          let '(outcome, st, evs') := whileTrue pages cycles castData st in
          (outcome, st, evs ++ evs')
      end
  end.

Definition renderableImageURLs (pages cycles : nat) (castData : CastData)
    (w : W) : Outcome * State * list Event :=
  let lastYieldTime := Date_now w in
  let lastYieldTime := (lastYieldTime - (slideDuration - 2500))%Z in
  whileTrue pages cycles castData
    {| world := w; issued := 0; previousURLs := []; urls := [];
       lastYieldTime := lastYieldTime |}.

(** *** Reading a trace *)

(** The pairs yielded, in order. *)
Definition yielded (evs : list Event) : list (string * string) :=
  omap (fun e => match e with Yielded urlPair _ => Some urlPair | _ => None end)
    evs.

(** The URLs revoked. *)
Fixpoint revokedIn (evs : list Event) : gset string :=
  match evs with
  | [] => ∅
  | Revoked url :: evs => {[url]} ∪ revokedIn evs
  | _ :: evs => revokedIn evs
  end.

(** Every retention queue of the trace holds at most two URLs, none of
    them in [dead] or revoked earlier in the trace. *)
Fixpoint retention (dead : gset string) (evs : list Event) : Prop :=
  match evs with
  | [] => True
  | Revoked url :: evs => retention ({[url]} ∪ dead) evs
  | Yielded _ retained :: evs =>
      length retained ≤ 2
      ∧ (∀ url, url ∈ retained → url ∉ dead)
      ∧ retention dead evs
  | _ :: evs => retention dead evs
  end.

(** What holds of the generator's variables whenever the [for] loop is
    about to take a file: nothing is waiting in [urls]; the retention
    queue holds at most two URLs, all different, all issued; and no URL
    of [dead], issued too, is in the queue. *)
Definition retains (dead : gset string) (st : State) : Prop :=
  urls st = []
  ∧ length (previousURLs st) ≤ 2
  ∧ NoDup (previousURLs st)
  ∧ (∀ url, url ∈ previousURLs st →
       (url ∉ dead) ∧ (∃ n, n < issued st ∧ url = objectURL n))
  ∧ (∀ url, url ∈ dead → ∃ n, n < issued st ∧ url = objectURL n).

End Files.

(** *** A scripted platform

    A server that holds a list of records and answers a diff request with
    the first two records newer than the watermark; a toy cipher (a key
    or a blob named "corrupt" does not decrypt, the metadata blob is the
    title and its header names the file type); a clock that only [wait]
    advances; and a shuffle that reverses the listing. *)

Record Server := {
  records : list Enc.File;
  missing : list Z;
  time : Z;
}.

Definition scripted_get_diff (w : Server) (sinceTime : Z) (castToken : string)
    : result DiffResponse * Server :=
  let newer :=
    List.filter (fun f => (sinceTime <? Enc.updationTime f)%Z) (records w) in
  (Ok {| diff := take 2 newer; hasMore := 2 <? length newer |}, w).

Definition scripted_getCastFileURL (id : Z) : string :=
  "https://cast.example/files/" +:+ pretty id.

Definition scripted_get_file (w : Server) (url castToken : string)
    : result (option (list Z)) * Server :=
  if bool_decide (url ∈ map scripted_getCastFileURL (missing w))
  then (Throw "Request failed with status code 404", w)
  else (Ok (Some [255; 216; 255]%Z), w).

Definition scripted_decryptB64 (encrypted nonce key : string) : result string :=
  if String.eqb encrypted "corrupt" then Throw "Failed to decrypt"
  else Ok ("key-of-" +:+ encrypted).

Definition scripted_decryptMetadata (encrypted fileHeader key : string)
    : result Metadata :=
  if String.eqb encrypted "corrupt" then Throw "Failed to decrypt"
  else Ok {| title := encrypted;
             fileType := if String.eqb fileHeader "image" then IMAGE
                         else if String.eqb fileHeader "video" then VIDEO
                         else if String.eqb fileHeader "live" then LIVE_PHOTO
                         else OTHERS;
             creationTime := 0 |}.

Definition scripted_decryptMetadata_pub (encrypted fileHeader key : string)
    : result PublicMagicMetadataProps :=
  Ok {| editedTime := None; editedName := Some encrypted |}.

(** The part of a file name after its last dot, if it has one. *)
Fixpoint extension_of (fileName : string) : option string :=
  match fileName with
  | EmptyString => None
  | String c rest =>
      match extension_of rest with
      | Some e => Some e
      | None => if Ascii.eqb c "."%char then Some rest else None
      end
  end.

Definition scripted_isNonWeb (extension : option string) : bool :=
  match extension with
  | Some e => bool_decide (e ∈ ["heic"; "rw2"; "tiff"; "arw"; "cr3"; "cr2";
                                "raf"; "nef"; "psd"; "dng"; "tif"])
  | None => false
  end.

#[global] Program Instance scripted : Platform Server := {|
  HTTPService_get_diff := scripted_get_diff;
  HTTPService_get_file := scripted_get_file;
  getCastFileURL := scripted_getCastFileURL;
  shuffled w files := (reverse files, w);
  Date_now := time;
  wait ms w := {| records := records w; missing := missing w;
                  time := (time w + ms)%Z |};
  resumed w := w;
  decryptB64 := scripted_decryptB64;
  decryptMetadata := scripted_decryptMetadata;
  decryptMetadata_magic _ _ _ := Ok (JObj []);
  decryptMetadata_pub := scripted_decryptMetadata_pub;
  fromB64 _ := Ok [];
  decryptFile encrypted _ _ := Ok encrypted;
  decodeLivePhoto _ blob := Ok blob;
  detectMediaMIMEType _ _ := Ok (Some "image/jpeg");
  nameAndExtension fileName := (fileName, extension_of fileName);
  isNonWebImageFileExtension := scripted_isNonWeb;
|}.
Next Obligation. intros w files. apply reverse_Permutation. Qed.

(** A record of the scripted server: its id, title, kind ("image",
    "video" or "live"), size, and updation time. *)
Definition record (id : Z) (title kind : string) (size updationTime : Z)
    : Enc.File :=
  {| Enc.id := id;
     Enc.encryptedKey := "k" +:+ pretty id;
     Enc.keyDecryptionNonce := "n";
     Enc.metadata := {| encryptedData := title; decryptionHeader := kind |};
     Enc.magicMetadata := None;
     Enc.pubMagicMetadata := None;
     Enc.file := {| encryptedData := ""; decryptionHeader := "h" |};
     Enc.info := {| fileSize := size |};
     Enc.isDeleted := false;
     Enc.updationTime := updationTime |}.

Definition MiB : Z := 1024 * 1024.

Definition server (records : list Enc.File) : Server :=
  {| records := records; missing := []; time := 0 |}.

Definition file_a : Enc.File := record 1 "a.jpg" "image" (50 * MiB) 3.
Definition file_b : Enc.File := record 2 "b.jpg" "live" (2 * MiB) 5.
Definition file_c : Enc.File := record 3 "c.png" "image" (1 * MiB) 7.
Definition file_d : Enc.File := record 4 "d.jpg" "image" (3 * MiB) 9.

(** A record the server reports as deleted. *)
Definition deleted_file : Enc.File :=
  {| Enc.id := 6;
     Enc.encryptedKey := "k6";
     Enc.keyDecryptionNonce := "n";
     Enc.metadata := {| encryptedData := "gone.jpg";
                        decryptionHeader := "image" |};
     Enc.magicMetadata := None;
     Enc.pubMagicMetadata := None;
     Enc.file := {| encryptedData := ""; decryptionHeader := "h" |};
     Enc.info := {| fileSize := 1 |};
     Enc.isDeleted := true;
     Enc.updationTime := 4 |}.

(** Records that do not decrypt: one by its key, one by its metadata. *)
Definition corrupt_key : Enc.File :=
  {| Enc.id := 7;
     Enc.encryptedKey := "corrupt";
     Enc.keyDecryptionNonce := "n";
     Enc.metadata := {| encryptedData := "x.jpg"; decryptionHeader := "image" |};
     Enc.magicMetadata := None;
     Enc.pubMagicMetadata := None;
     Enc.file := {| encryptedData := ""; decryptionHeader := "h" |};
     Enc.info := {| fileSize := 1 |};
     Enc.isDeleted := false;
     Enc.updationTime := 4 |}.

Definition corrupt_metadata : Enc.File := record 8 "corrupt" "image" 1 6.

Definition castData0 : CastData :=
  {| collectionKey := "collection-key"; castToken := "token" |}.

(** The generator's variables when it is started in the world [w]. *)
Definition started (w : Server) : State :=
  {| world := w; issued := 0; previousURLs := []; urls := [];
     lastYieldTime := (Date_now w - (slideDuration - 2500))%Z |}.

(** A file of the scripted platform, once decrypted. *)
Definition decrypted (encryptedFile : Enc.File) : EnteFile :=
  match decryptEnteFile encryptedFile "collection-key" with
  | Ok file => file
  | Throw _ =>
      {| id := 0; key := "";
         metadata := {| title := ""; fileType := OTHERS; creationTime := 0 |};
         magicMetadata := None; pubMagicMetadata := None;
         file := Enc.file encryptedFile; info := Enc.info encryptedFile;
         isDeleted := false; updationTime := 0 |}
  end.

(** [Number::toString] for the examples, whose numbers are small
    integers: the decimal digits. *)
Definition decimal (n : Z) : string := pretty n.

(** *** More readings of a trace *)

(** The URLs revoked, in order. *)
Definition revokedList (evs : list Event) : list string :=
  omap (fun e => match e with Revoked url => Some url | _ => None end) evs.

(** The waits of a trace, in order. *)
Definition waits (evs : list Event) : list Z :=
  omap (fun e => match e with Waited ms => Some ms | _ => None end) evs.

(** No URL is revoked while it is the one most recently yielded; [shown]
    is the URL most recently yielded before the trace, if any. *)
Fixpoint neverRevokesShown (shown : option string) (evs : list Event) : Prop :=
  match evs with
  | [] => True
  | Revoked url :: evs => shown ≠ Some url ∧ neverRevokesShown shown evs
  | Yielded urlPair _ :: evs => neverRevokesShown (Some urlPair.1) evs
  | _ :: evs => neverRevokesShown shown evs
  end.

(** The URL most recently yielded after a trace. *)
Definition shownAfter (shown : option string) (evs : list Event)
    : option string :=
  match last (yielded evs) with
  | Some urlPair => Some urlPair.1
  | None => shown
  end.


(** Every URL yielded before a yield of the trace is in the retention
    queue of that yield or was revoked before it. *)
Definition releasedBeforeYield (hist : list Event) : Prop :=
  ∀ j urlPair retained url,
    hist !! j = Some (Yielded urlPair retained) →
    url ∈ (yielded (take j hist)).*1 →
    url ∈ retained ∨ url ∈ revokedList (take j hist).

(** The generator's account of its URLs after the events [hist], counted
    from its start: nothing is waiting in [urls]; the URLs yielded are
    the URLs issued, in that order; all but the last two of them have
    been revoked, in that order; the last two are the retention queue;
    and none was revoked while it was the one most recently yielded. *)
Definition account {W : Type} (st : State (W:=W)) (hist : list Event) : Prop :=
  urls st = []
  ∧ (yielded hist).*1 = objectURL <$> seq 0 (issued st)
  ∧ revokedList hist = objectURL <$> seq 0 (issued st - 2)
  ∧ previousURLs st = objectURL <$> seq (issued st - 2) (issued st `min` 2)
  ∧ neverRevokesShown None hist.

(** A record that decrypts to a file that cannot be shown in the worlds
    [Q]: the file is not eligible, or creating its URL throws and leaves
    the world in [Q]. *)
Definition notShowable {W : Type} `{Platform W} (Q : W → Prop)
    (castData : CastData) (encryptedFile : Enc.File) : Prop :=
  ∃ file,
    decryptEnteFile encryptedFile (collectionKey castData) = Ok file
    ∧ (isFileEligibleForCast file = false
       ∨ ∀ st : State (W:=W),
           Q (world st) →
           is_ok (createRenderableURL (castToken castData) file st).1 = false
           ∧ Q (world (createRenderableURL (castToken castData) file st).2)).

(** A magic metadata blob that is absent or has no data. *)
Definition noMagic (magicMetadata : option (MagicMetadata string)) : Prop :=
  match magicMetadata with
  | Some mm => data mm = ""
  | None => True
  end.

(** A record of the scripted server that was renamed: its metadata
    still hold the old title. *)
Definition renamed : Enc.File :=
  {| Enc.id := 9;
     Enc.encryptedKey := "k9";
     Enc.keyDecryptionNonce := "n";
     Enc.metadata := {| encryptedData := "old.heic";
                        decryptionHeader := "image" |};
     Enc.magicMetadata := None;
     Enc.pubMagicMetadata := Some {| header := "h"; data := "new.jpg" |};
     Enc.file := {| encryptedData := ""; decryptionHeader := "h" |};
     Enc.info := {| fileSize := 1 |};
     Enc.isDeleted := false;
     Enc.updationTime := 8 |}.

End Render.

(** ** Machine learning services *)

Module ML.

(** The service objects the factory hands out. *)
Inductive Service : Type :=
  | blazeFaceDetectionService
  | arcfaceCropService
  | arcfaceAlignmentService
  | mobileFaceNetEmbeddingService
  | hdbscanClusteringService.

(** *** MLFactory

    The methods are string literal types in the source, and strings when
    the factory compares them. *)

Definition getFaceDetectionService (method : string) : result Service :=
  if String.eqb method "BlazeFace" then Ok blazeFaceDetectionService
  else Throw ("Unknon face detection method: " +:+ method).

Definition getFaceCropService (method : string) : result Service :=
  if String.eqb method "ArcFace" then Ok arcfaceCropService
  else Throw ("Unknon face crop method: " +:+ method).

Definition getFaceAlignmentService (method : string) : result Service :=
  if String.eqb method "ArcFace" then Ok arcfaceAlignmentService
  else Throw ("Unknon face alignment method: " +:+ method).

Definition getFaceEmbeddingService (method : string) : result Service :=
  if String.eqb method "MobileFaceNet" then Ok mobileFaceNetEmbeddingService
  else Throw ("Unknon face embedding method: " +:+ method).

Definition getClusteringService (method : string) : result Service :=
  if String.eqb method "Hdbscan" then Ok hdbscanClusteringService
  else Throw ("Unknon clustering method: " +:+ method).

(** The part of [MLSyncConfig] the context reads: the [method] of each of
    its five sections. *)
Record MLSyncConfig := {
  faceDetection : string;
  faceCrop : string;
  faceAlignment : string;
  faceEmbedding : string;
  faceClustering : string;
}.

Section Context_.

(** [File] and [Face], of which the context only holds lists. *)
Context {File Face : Type}.

Record LocalMLSyncContext := {
  token : string;
  config : MLSyncConfig;
  shouldUpdateMLVersion : bool;
  faceDetectionService : Service;
  faceCropService : Service;
  faceAlignmentService : Service;
  faceEmbeddingService : Service;
  faceClusteringService : Service;
  outOfSyncFiles : list File;
  syncedFiles : list File;
  syncedFaces : list Face;
}.

(** The constructor; [shouldUpdateMLVersion] is [None] when the argument
    is left out. *)
Definition new_LocalMLSyncContext (token : string) (config : MLSyncConfig)
    (shouldUpdateMLVersion : option bool) : result LocalMLSyncContext :=
  let shouldUpdateMLVersion := default true shouldUpdateMLVersion in
  faceDetectionService ← getFaceDetectionService (faceDetection config);
  faceCropService ← getFaceCropService (faceCrop config);
  faceAlignmentService ← getFaceAlignmentService (faceAlignment config);
  faceEmbeddingService ← getFaceEmbeddingService (faceEmbedding config);
  faceClusteringService ← getClusteringService (faceClustering config);
  mret {| token := token;
          config := config;
          shouldUpdateMLVersion := shouldUpdateMLVersion;
          faceDetectionService := faceDetectionService;
          faceCropService := faceCropService;
          faceAlignmentService := faceAlignmentService;
          faceEmbeddingService := faceEmbeddingService;
          faceClusteringService := faceClusteringService;
          outOfSyncFiles := [];
          syncedFiles := [];
          syncedFaces := [] |}.

Definition getMLSyncContext (token : string) (config : MLSyncConfig)
    (shouldUpdateMLVersion : option bool) : result LocalMLSyncContext :=
  new_LocalMLSyncContext token config shouldUpdateMLVersion.

(** [dispose]: the services whose [dispose] is awaited, in order, when
    none of them throws. *)
Definition dispose (context : LocalMLSyncContext) : list Service :=
  [faceDetectionService context; faceEmbeddingService context].

End Context_.

(** The one configuration the factory knows. *)
Definition knownConfig : MLSyncConfig :=
  {| faceDetection := "BlazeFace";
     faceCrop := "ArcFace";
     faceAlignment := "ArcFace";
     faceEmbedding := "MobileFaceNet";
     faceClustering := "Hdbscan" |}.

End ML.

(** ** One-time password codes *)

Module Auth.

(** [enum Type] and [enum Algorithm], with their [name]s. *)
Inductive Type_ : Type := totp | hotp | steam.

Inductive Algorithm : Type := sha1 | sha256 | sha512.

#[global] Instance Type_eq_dec : EqDecision Type_.
Proof. solve_decision. Defined.

#[global] Instance Algorithm_eq_dec : EqDecision Algorithm.
Proof. solve_decision. Defined.

Definition Type_name (type : Type_) : string :=
  match type with totp => "totp" | hotp => "hotp" | steam => "steam" end.

Definition Algorithm_name (algorithm : Algorithm) : string :=
  match algorithm with
  | sha1 => "sha1"
  | sha256 => "sha256"
  | sha512 => "sha512"
  end.

Definition isTOTPCompatible (this : Type_) : bool :=
  bool_decide (this = totp) || bool_decide (this = steam).

Definition defaultDigits : Z := 6.
Definition steamDigits : Z := 5.
Definition defaultPeriod : Z := 30.

Record Code := {
  generatedID : option Z;
  account : string;
  issuer : string;
  digits : Z;
  period : Z;
  secret : string;
  algorithm : Algorithm;
  type : Type_;
  rawData : string;
  counter : Z;
  hasSynced : option bool;
}.

(** The constructor: [hasSynced] is left unset. *)
Definition Code_new (account issuer : string) (digits period : Z)
    (secret : string) (algorithm : Algorithm) (type : Type_) (counter : Z)
    (rawData : string) (generatedID : option Z) : Code :=
  {| generatedID := generatedID; account := account; issuer := issuer;
     digits := digits; period := period; secret := secret;
     algorithm := algorithm; type := type; rawData := rawData;
     counter := counter; hasSynced := None |}.

(** [copyWith]: an argument that is left out is [None]. *)
Definition copyWith (this : Code) (account issuer : option string)
    (digits period : option Z) (secret : option string)
    (algorithm : option Algorithm) (type : option Type_)
    (counter : option Z) : Code :=
  let updateAccount := default (Auth.account this) account in
  let updateIssuer := default (Auth.issuer this) issuer in
  let updatedDigits := default (Auth.digits this) digits in
  let updatePeriod := default (Auth.period this) period in
  let updatedSecret := default (Auth.secret this) secret in
  let updatedAlgo := default (Auth.algorithm this) algorithm in
  let updatedType := default (Auth.type this) type in
  let updatedCounter := default (Auth.counter this) counter in
  Code_new updateAccount updateIssuer updatedDigits updatePeriod
    updatedSecret updatedAlgo updatedType updatedCounter
    ("otpauth://" +:+ Type_name updatedType +:+ "/" +:+ updateIssuer +:+ ":"
     +:+ updateAccount +:+ "?algorithm=" +:+ Algorithm_name updatedAlgo
     +:+ "&digits=" +:+ pretty updatedDigits +:+ "&issuer=" +:+ updateIssuer
     +:+ "&period=" +:+ pretty updatePeriod +:+ "&secret=" +:+ updatedSecret
     +:+ (if bool_decide (updatedType = hotp)
          then "&counter=" +:+ pretty updatedCounter else ""))
    (generatedID this).

Definition fromAccountAndSecret (type : Type_) (account issuer secret : string)
    (digits : Z) : Code :=
  Code_new account issuer digits defaultPeriod secret sha1 type 0
    ("otpauth://" +:+ Type_name type +:+ "/" +:+ issuer +:+ ":" +:+ account
     +:+ "?algorithm=SHA1&digits=" +:+ pretty digits +:+ "&issuer=" +:+ issuer
     +:+ "&period=30&secret=" +:+ secret)
    None.

(** [operator ==]. *)
Definition Code_eq (this other : Code) : bool :=
  bool_decide (account other = account this)
  && bool_decide (issuer other = issuer this)
  && bool_decide (digits other = digits this)
  && bool_decide (period other = period this)
  && bool_decide (secret other = secret this)
  && bool_decide (counter other = counter this)
  && bool_decide (type other = type this)
  && bool_decide (rawData other = rawData this).

(** *** Strings *)

(** [s.contains(c)] and [s.split(c)] for a one-character pattern. *)
Fixpoint containsChar (c : ascii) (s : string) : bool :=
  match s with
  | EmptyString => false
  | String c' s => Ascii.eqb c' c || containsChar c s
  end.

Fixpoint split (c : ascii) (s : string) : list string :=
  match s with
  | EmptyString => [""]
  | String c' s =>
      if Ascii.eqb c' c then "" :: split c s
      else match split c s with
           | piece :: pieces => String c' piece :: pieces
           | [] => [String c' ""]
           end
  end.

(** [s.replaceAll("#", "%23")]. *)
Fixpoint escapeHash (s : string) : string :=
  match s with
  | EmptyString => ""
  | String c s =>
      if Ascii.eqb c "#"%char then "%23" +:+ escapeHash s
      else String c (escapeHash s)
  end.

(** [s.toLowerCase()] on the letters A to Z. The source only compares
    the result with words of letters a to z and digits, which no other
    character is lowered to. *)
Definition lowerChar (c : ascii) : ascii :=
  let n := Ascii.nat_of_ascii c in
  if (65 <=? n) && (n <=? 90) then Ascii.ascii_of_nat (n + 32) else c.

Fixpoint toLowerCase (s : string) : string :=
  match s with
  | EmptyString => ""
  | String c s => String (lowerChar c) (toLowerCase s)
  end.

(** *** fromRawData *)

Record Uri := {
  host : string;
  path : string;
  queryParameters : gmap string string;
}.

Section FromRawData.

(** [Uri.parse], [Uri.decodeComponent], [int.parse], each of which may
    throw, and [getSanitizedSecret] of the TOTP utilities. *)
Variable Uri_parse : string → result Uri.
Variable Uri_decodeComponent : string → result string.
Variable int_parse : string → result Z.
Variable getSanitizedSecret : string → string.

(** [map[key]!]. *)
Definition nonNull (v : option string) : result string :=
  match v with
  | Some s => Ok s
  | None => Throw "Null check operator used on a null value"
  end.

(** [try { ... } catch (e) { return fallback; }]. *)
Definition orElse {A} (attempt : result A) (fallback : A) : A :=
  match attempt with
  | Ok a => a
  | Throw _ => fallback
  end.

Definition _getAccount (uri : Uri) : string :=
  orElse
    (path ← Uri_decodeComponent (path uri);
     let path := match path with
                 | String "/" rest => rest
                 | _ => path
                 end in
     if bool_decide (is_Some (queryParameters uri !! "issuer"))
        && negb (containsChar ":" path)
     then Ok path
     else match split ":" path !! 1 with
          | Some piece => Ok piece
          | None => Throw "RangeError"
          end)
    "".

Definition _getIssuer (uri : Uri) : string :=
  orElse
    (match queryParameters uri !! "issuer" with
     | Some issuerName =>
         match String.index 0 "period=" issuerName with
         | Some i => Ok (String.substring 0 i issuerName)
         | None => Ok issuerName
         end
     | None =>
         path ← Uri_decodeComponent (path uri);
         match split ":" path !! 0 with
         | Some (String _ rest) => Ok rest
         | _ => Throw "RangeError"
         end
     end)
    "".

Definition _getDigits (uri : Uri) (issuer : string) : Z :=
  orElse (digits ← nonNull (queryParameters uri !! "digits"); int_parse digits)
    (if String.eqb (toLowerCase issuer) "steam" then steamDigits
     else defaultDigits).

Definition _getPeriod (uri : Uri) : Z :=
  orElse (period ← nonNull (queryParameters uri !! "period"); int_parse period)
    defaultPeriod.

Definition _getCounter (uri : Uri) : Z :=
  orElse
    (match queryParameters uri !! "counter" with
     | None => Ok 0%Z
     | Some counter => int_parse counter
     end)
    defaultPeriod.

Definition _getAlgorithm (uri : Uri) : Algorithm :=
  let algorithm :=
    toLowerCase (default "null" (queryParameters uri !! "algorithm")) in
  if String.eqb algorithm "sha256" then sha256
  else if String.eqb algorithm "sha512" then sha512
  else sha1.

Definition _getType (uri : Uri) : result Type_ :=
  if String.eqb (host uri) "totp" then Ok totp
  else if String.eqb (host uri) "steam" then Ok steam
  else if String.eqb (host uri) "hotp" then Ok hotp
  else Throw ("Unsupported format with host " +:+ host uri).

(** The [try] block of [fromRawData]: the arguments of the constructor
    in the order they are evaluated. *)
Definition parsed (uri : Uri) (issuer rawData : string) : result Code :=
  let account := _getAccount uri in
  let digits := _getDigits uri issuer in
  let period := _getPeriod uri in
  secret ← nonNull (queryParameters uri !! "secret");
  let secret := getSanitizedSecret secret in
  let algorithm := _getAlgorithm uri in
  type ← _getType uri;
  let counter := _getCounter uri in
  mret (Code_new account issuer digits period secret algorithm type counter
          rawData None).

(** [fromRawData] calls itself from its [catch]; [fuel] bounds the depth
    of the calls, and [None] means it is used up. *)
Fixpoint fromRawData (fuel : nat) (rawData : string) : option (result Code) :=
  match fuel with
  | O => None
  | S fuel =>
      match Uri_parse rawData with
      | Throw e => Some (Throw e)
      | Ok uri =>
          let issuer := _getIssuer uri in
          match parsed uri issuer rawData with
          | Ok code => Some (Ok code)
          | Throw e =>
              if containsChar "#" rawData
              then fromRawData fuel (escapeHash rawData)
              else Some (Throw e)
          end
      end
  end.

End FromRawData.

Section HashCode.

(** [hashCode] of strings, integers and [Type] values. *)
Variable String_hashCode : string → Z.
Variable int_hashCode : Z → Z.
Variable Type_hashCode : Type_ → Z.

Definition hashCode (this : Code) : Z :=
  Z.lxor (Z.lxor (Z.lxor (Z.lxor (Z.lxor (Z.lxor (Z.lxor
    (String_hashCode (account this))
    (String_hashCode (issuer this)))
    (int_hashCode (digits this)))
    (int_hashCode (period this)))
    (String_hashCode (secret this)))
    (Type_hashCode (type this)))
    (int_hashCode (counter this)))
    (String_hashCode (rawData this)).

End HashCode.

(** *** A scripted parser

    A URI parser for the examples: it knows five strings. *)
Definition scripted_Uri_parse (rawData : string) : result Uri :=
  if String.eqb rawData "otpauth://totp/ente:alice?secret=abc&issuer=ente"
  then Ok {| host := "totp"; path := "/ente:alice";
             queryParameters :=
               {[ "secret" := "abc"; "issuer" := "ente" ]} |}
  else if String.eqb rawData "otpauth://totp/ente:al#ice?secret=abc"
  then Ok {| host := "totp"; path := "/ente:al"; queryParameters := ∅ |}
  else if String.eqb rawData "otpauth://totp/ente:al%23ice?secret=abc"
  then Ok {| host := "totp"; path := "/ente:al%23ice";
             queryParameters := {[ "secret" := "abc" ]} |}
  else if String.eqb rawData "otpauth://yubi/ente:bob"
  then Ok {| host := "yubi"; path := "/ente:bob"; queryParameters := ∅ |}
  else if String.eqb rawData "otpauth://yubi/ente:bob?secret=abc"
  then Ok {| host := "yubi"; path := "/ente:bob";
             queryParameters := {[ "secret" := "abc" ]} |}
  else Throw "FormatException".

Definition scripted_decodeComponent (s : string) : result string :=
  if String.eqb s "/ente:al%23ice" then Ok "/ente:al#ice" else Ok s.

Definition scripted_int_parse (s : string) : result Z :=
  if String.eqb s "6" then Ok 6%Z
  else if String.eqb s "8" then Ok 8%Z
  else Throw "FormatException".

Definition scripted_fromRawData : nat → string → option (result Code) :=
  fromRawData scripted_Uri_parse scripted_decodeComponent scripted_int_parse
    (fun secret => secret).

End Auth.

(** ** Facts about pairing *)

Module PairFacts.

Import Pair.

(** *** Facts about register *)

Lemma calls_app evs evs' : calls (evs ++ evs') = calls evs + calls evs'.
Proof. induction evs as [| [] evs IH]; cbn; lia. Qed.

Lemma waited_app evs evs' :
  waited (evs ++ evs') = (waited evs + waited evs')%Z.
Proof. induction evs as [| [] evs IH]; cbn; lia. Qed.

Section RegisterFacts.

Context {W : Type}.
Variable generateKeyPair : W → KeyPair * W.
Variable toB64 : list Z → string.
Variable registerDevice : W → string → result string * W.
Variable wait : Z → W → W.

Abbreviation register_loop := (register_loop registerDevice wait).
Abbreviation attempt := (attempt registerDevice wait).
Abbreviation world_at := (world_at registerDevice wait).

(** What one iteration that yields no code does. *)
Lemma register_loop_retry fuel pub pc w :
  truthy_str pc = false →
  succeeds (attempt 0 pub w) = false →
  ∃ evs pc',
    truthy_str pc' = false
    ∧ calls evs = 1 ∧ waited evs = 0%Z
    ∧ (∀ rest, max_in_flight 0 (evs ++ rest) = 1 `max` max_in_flight 0 rest)
    ∧ register_loop (S fuel) pub pc w =
        let '(res, w', evs') :=
          register_loop fuel pub pc' (world_at 1 pub w) in
        (res, w', evs ++ Wait 10000 :: evs').
Proof.
  intros Hpc Hfail. unfold attempt in Hfail. cbn in Hfail |- *.
  destruct (registerDevice w pub) as [[code | e] w1]; cbn in Hfail |- *.
  - rewrite Hfail. by exists [CallStart pub; CallEnd (Ok code)], (Some code).
  - rewrite Hpc. by exists [CallStart pub; CallEnd (Throw e); RegLogError e], pc.
Qed.

(** As long as every attempt fails the loop is still retrying: one call
    and one wait of 10 s per iteration, never two calls at once. *)
Lemma register_loop_retrying fuel : ∀ pub pc w,
  truthy_str pc = false →
  (∀ i, i < fuel → succeeds (attempt i pub w) = false) →
  ∃ evs,
    register_loop fuel pub pc w = (None, world_at fuel pub w, evs)
    ∧ calls evs = fuel
    ∧ waited evs = (10000 * Z.of_nat fuel)%Z
    ∧ max_in_flight 0 evs ≤ 1.
Proof.
  induction fuel as [| fuel IH]; intros pub pc w Hpc Hfail.
  { exists []. cbn. split_and!; [done.. | lia]. }
  destruct (register_loop_retry fuel pub pc w Hpc) as
    (evs & pc' & Hpc' & Hcalls & Hwait & Hmax & ->); [apply Hfail; lia |].
  destruct (IH pub pc' (world_at 1 pub w) Hpc') as
    (evs' & -> & Hcalls' & Hwait' & Hmax').
  { intros i Hi. apply (Hfail (S i)). lia. }
  exists (evs ++ Wait 10000 :: evs'). split; [done |].
  clear IH Hfail. split_and!.
  - rewrite calls_app. cbn. lia.
  - rewrite waited_app. cbn. lia.
  - rewrite Hmax. cbn. lia.
Qed.

(** The first attempt that yields a code ends the loop with that code. *)
Lemma register_loop_success k : ∀ fuel pub pc w,
  k < fuel →
  truthy_str pc = false →
  (∀ i, i < k → succeeds (attempt i pub w) = false) →
  succeeds (attempt k pub w) = true →
  ∃ code evs,
    attempt k pub w = Ok code
    ∧ register_loop fuel pub pc w =
        (Some code, (registerDevice (world_at k pub w) pub).2, evs)
    ∧ calls evs = S k
    ∧ waited evs = (10000 * Z.of_nat k)%Z
    ∧ max_in_flight 0 evs ≤ 1.
Proof.
  induction k as [| k IH]; intros [| fuel] pub pc w Hk Hpc Hfail Hok; try lia.
  - unfold attempt in Hok |- *. cbn in Hok |- *.
    destruct (registerDevice w pub) as [[code | e] w1]; cbn in Hok |- *;
      [| done].
    rewrite Hok. exists code, [CallStart pub; CallEnd (Ok code)].
    cbn. split_and!; [done.. | lia].
  - destruct (register_loop_retry fuel pub pc w Hpc) as
      (evs & pc' & Hpc' & Hcalls & Hwait & Hmax & ->); [apply Hfail; lia |].
    destruct (IH fuel pub pc' (world_at 1 pub w)) as
      (code & evs' & Hcode & -> & Hcalls' & Hwait' & Hmax'); [lia | done | | |].
    { intros i Hi. apply (Hfail (S i)). lia. }
    { exact Hok. }
    exists code, (evs ++ Wait 10000 :: evs'). split_and!; [done.. | | |].
    + rewrite calls_app. cbn. lia.
    + rewrite waited_app. cbn. lia.
    + rewrite Hmax. cbn. lia.
Qed.

(** The loop only ends on an attempt that yields a code. *)
Lemma register_loop_returns fuel : ∀ pub pc w code w' evs,
  truthy_str pc = false →
  register_loop fuel pub pc w = (Some code, w', evs) →
  ∃ k, k < fuel
    ∧ (∀ i, i < k → succeeds (attempt i pub w) = false)
    ∧ attempt k pub w = Ok code
    ∧ succeeds (attempt k pub w) = true.
Proof.
  induction fuel as [| fuel IH]; intros pub pc w code w' evs Hpc Hrun;
    [done |].
  destruct (succeeds (attempt 0 pub w)) eqn:Hfirst.
  - destruct (register_loop_success 0 (S fuel) pub pc w) as
      (code' & evs' & Hcode & Hrun' & _); [lia | done | lia | done |].
    exists 0. split_and!; [lia | lia | congruence | done].
  - destruct (register_loop_retry fuel pub pc w Hpc Hfirst) as
      (evs0 & pc' & Hpc' & _ & _ & _ & Hstep).
    rewrite Hstep in Hrun.
    destruct (register_loop fuel pub pc' (world_at 1 pub w))
      as [[res w1] evs1] eqn:Hrest.
    injection Hrun as -> -> <-.
    destruct (IH _ _ _ _ _ _ Hpc' Hrest) as (k & Hk & Hfail & Hcode & Hok).
    exists (S k). split_and!; [lia | | done | done].
    intros [| i] Hi; [done | apply Hfail; lia].
Qed.

(** C3: [register] keeps retrying while the registration call yields no
    code, one call at a time with a wait of 10 s after each failed one; an
    attempt succeeds when it returns a pairing code. While every attempt
    fails it is still running, however many iterations it is given. It
    returns exactly when an attempt succeeds: if the first success is
    attempt [k] (from 0), it made [k + 1] calls, waited [k] times 10 s,
    and returns that attempt's code with the generated keypair. *)
Theorem register_retries_until_success (fuel : nat) (w : W) :
  let keypair := (generateKeyPair w).1 in
  let w0 := (generateKeyPair w).2 in
  let pub := toB64 (publicKey keypair) in
  let priv := toB64 (privateKey keypair) in
  ((∀ i, i < fuel → succeeds (attempt i pub w0) = false) →
   ∃ w' evs,
     register generateKeyPair toB64 registerDevice wait fuel w = (None, w', evs)
     ∧ calls evs = fuel
     ∧ waited evs = (10000 * Z.of_nat fuel)%Z
     ∧ max_in_flight 0 evs ≤ 1)
  ∧ (∀ k, k < fuel →
       (∀ i, i < k → succeeds (attempt i pub w0) = false) →
       succeeds (attempt k pub w0) = true →
       ∃ code w' evs,
         attempt k pub w0 = Ok code
         ∧ register generateKeyPair toB64 registerDevice wait fuel w =
             (Some {| pairingCode := code;
                      publicKeyB64 := pub;
                      privateKeyB64 := priv |}, w', evs)
         ∧ calls evs = S k
         ∧ waited evs = (10000 * Z.of_nat k)%Z
         ∧ max_in_flight 0 evs ≤ 1)
  ∧ (∀ reg w' evs,
       register generateKeyPair toB64 registerDevice wait fuel w
         = (Some reg, w', evs) →
       ∃ k, k < fuel
         ∧ (∀ i, i < k → succeeds (attempt i pub w0) = false)
         ∧ succeeds (attempt k pub w0) = true
         ∧ attempt k pub w0 = Ok (pairingCode reg)
         ∧ publicKeyB64 reg = pub ∧ privateKeyB64 reg = priv).
Proof.
  intros keypair w0 pub priv. unfold register.
  destruct (generateKeyPair w) as [kp w1] eqn:Hgen.
  subst keypair w0 pub priv. cbn [fst snd].
  split_and!.
  - intros Hfail.
    destruct (register_loop_retrying fuel (toB64 (publicKey kp)) None w1)
      as (evs & -> & Hrest); [done | done |]. eauto.
  - intros k Hk Hfail Hok.
    destruct (register_loop_success k fuel (toB64 (publicKey kp)) None w1)
      as (code & evs & Hcode & -> & Hrest); [done.. |]. eauto 10.
  - intros reg w' evs Hrun.
    destruct (register_loop fuel (toB64 (publicKey kp)) None w1)
      as [[[code |] w2] evs2] eqn:Hloop; [| done].
    injection Hrun as <- _ _. cbn.
    destruct (register_loop_returns fuel _ None _ _ _ _ eq_refl Hloop)
      as (k & Hk & Hfail & Hcode & Hok).
    exists k. by split_and!.
Qed.

End RegisterFacts.

(** Two failed registrations, then a code: three calls, 20 s waited. *)
Lemma register_retries_witness :
  ∃ code w' evs,
    attempt scripted_registerDevice scripted_wait 2 "1.2.3."
      {| failures_left := 2; calls_made := 0; clock := 0 |} = Ok code
    ∧ register scripted_generateKeyPair scripted_toB64
        scripted_registerDevice scripted_wait 5
        {| failures_left := 2; calls_made := 0; clock := 0 |}
      = (Some {| pairingCode := code;
                 publicKeyB64 := "1.2.3.";
                 privateKeyB64 := "4.5.6." |}, w', evs)
    ∧ calls evs = 3
    ∧ waited evs = (10000 * Z.of_nat 2)%Z
    ∧ max_in_flight 0 evs ≤ 1.
Proof.
  apply (proj1 (proj2 (register_retries_until_success
    scripted_generateKeyPair scripted_toB64 scripted_registerDevice
    scripted_wait 5 {| failures_left := 2; calls_made := 0; clock := 0 |}))
    2).
  - lia.
  - intros [| [| i]] Hi; [reflexivity | reflexivity | lia].
  - reflexivity.
Defined.

(** *** Facts about getCastData *)

Section GetCastDataFacts.

Context {W : Type}.
Variable gateway_getCastData : W → string → result (option string) * W.
Variable boxSealOpen : string → string → string → result string.
Variable atob : string → result string.
Variable JSON_parse : string → result JsValue.

Abbreviation getCastData :=
  (getCastData gateway_getCastData boxSealOpen atob JSON_parse).

(** C2: [getCastData] makes one request. Without a payload it returns
    [undefined], which is not an error. With a payload it opens the sealed
    box with the registration's keys, decodes and parses it: a failure of
    any of the three steps is thrown to the caller as it is, and a success
    returns the parsed payload; the result is never [undefined] then. *)
Theorem getCastData_outcomes (registration : Registration) (w : W) :
  let response := gateway_getCastData w (pairingCode registration) in
  let open enc := boxSealOpen enc (publicKeyB64 registration)
                    (privateKeyB64 registration) in
  (getCastData registration w).2 = response.2
  ∧ (∀ enc, response.1 = Ok enc → truthy_str enc = false →
       (getCastData registration w).1 = Ok None)
  ∧ (∀ e, response.1 = Throw e → (getCastData registration w).1 = Throw e)
  ∧ (∀ enc, response.1 = Ok (Some enc) → enc ≠ "" →
       (getCastData registration w).1 ≠ Ok None
       ∧ (∀ e, open enc = Throw e →
            (getCastData registration w).1 = Throw e)
       ∧ (∀ dec e, open enc = Ok dec → atob dec = Throw e →
            (getCastData registration w).1 = Throw e)
       ∧ (∀ dec plain e, open enc = Ok dec → atob dec = Ok plain →
            JSON_parse plain = Throw e →
            (getCastData registration w).1 = Throw e)
       ∧ (∀ dec plain payload, open enc = Ok dec → atob dec = Ok plain →
            JSON_parse plain = Ok payload →
            (getCastData registration w).1 = Ok (Some payload))).
Proof.
  intros response open. subst response open. unfold Pair.getCastData.
  destruct (gateway_getCastData w (pairingCode registration)) as [r w1].
  cbn [fst snd]. split_and!; [done | | |].
  - intros enc -> Hfalsy. cbn. by rewrite Hfalsy.
  - by intros e ->.
  - intros enc -> Hne. apply String.eqb_neq in Hne. cbn. rewrite Hne. cbn.
    unfold mbind, mret, result_bind, result_ret. split_and!.
    + destruct (boxSealOpen enc _ _) as [dec |]; [| done].
      destruct (atob dec) as [plain |]; [| done].
      by destruct (JSON_parse plain).
    + by intros e ->.
    + by intros dec e -> ->.
    + by intros dec plain e -> -> ->.
    + by intros dec plain payload -> -> ->.
Qed.

End GetCastDataFacts.

(** On the scripted backend: no payload yet, a payload sealed for our
    key, and one that does not open. *)
Example getCastData_scripted :
  let registration := {| pairingCode := "482913"; publicKeyB64 := "1.2.3.";
                         privateKeyB64 := "4.5.6." |} in
  let w := {| failures_left := 0; calls_made := 0; clock := 0 |} in
  let poll payload :=
    (getCastData (scripted_getCastData payload) scripted_boxSealOpen
       scripted_atob scripted_JSON_parse registration w).1 in
  poll None = Ok None
  ∧ poll (Some "1.2.3.|{}") = Ok (Some (JObj []))
  ∧ poll (Some "9.9.9.|{}")
    = Throw "incorrect key pair for the given ciphertext"
  ∧ poll (Some "1.2.3.|{") = Throw "SyntaxError: Unexpected token".
Proof. by vm_compute. Qed.

(** *** Facts about the handshake listener *)

Section ListenerFacts.

Implicit Types (pc : unit → option string) (paired : option string)
  (p : ListenerProps).

Lemma stops_restart reason : stops (restart reason) = true.
Proof. unfold stops, restart. apply bool_decide_eq_true. set_solver. Qed.

Lemma stops_send ns sender code :
  stops [SendCustomMessage ns sender code] = false.
Proof.
  apply bool_decide_eq_false. intros Hin%list_elem_of_singleton. discriminate.
Qed.

Lemma listener_mismatch pc paired p :
  truthy_str paired = true →
  paired ≠ collectionID_of (data p) →
  incomingMessageListener pc paired p =
    (paired, restart ("incoming request for a new collection "
                      +:+ template (collectionID_of (data p)))).
Proof.
  intros Hset Hne. unfold incomingMessageListener, js_neq.
  by rewrite Hset, bool_decide_eq_true_2.
Qed.

Lemma listener_accept pc paired p :
  truthy_str paired = false ∨ paired = collectionID_of (data p) →
  incomingMessageListener pc paired p =
    (collectionID_of (data p),
     if truthy_str (pc tt)
     then [SendCustomMessage namespace (senderId p) (default "" (pc tt))]
     else restart "we got a pairing request when refreshing pairing codes").
Proof.
  intros Hacc. unfold incomingMessageListener, js_neq.
  assert (truthy_str paired && bool_decide (paired ≠ collectionID_of (data p))
          = false) as ->.
  { destruct Hacc as [-> | ->]; [done |].
    rewrite bool_decide_eq_false_2; [apply andb_false_r | tauto]. }
  by destruct (truthy_str (pc tt)).
Qed.

Lemma session_same_collection cid reqs : ∀ paired,
  truthy_str paired = false ∨ paired = cid →
  Forall (fun r => collectionID_of (data r.2) = cid
                   ∧ truthy_str (r.1 tt) = true) reqs →
  session paired reqs =
    (match reqs with [] => paired | _ => cid end,
     map (fun r => SendCustomMessage namespace (senderId r.2)
                     (default "" (r.1 tt))) reqs).
Proof.
  induction reqs as [| [pc p] reqs IH]; intros paired Hacc Hall; [done |].
  apply Forall_cons in Hall as [[Hcid Hcode] Hall]. simpl in Hcid, Hcode.
  cbn [session]. rewrite listener_accept by (rewrite Hcid; exact Hacc).
  rewrite Hcode, Hcid, stops_send. cbn [map fst snd].
  rewrite (IH cid) by auto. by destruct reqs.
Qed.

Lemma replies_sends (reqs : list ((unit → option string) * ListenerProps)) :
  replies (map (fun r => SendCustomMessage namespace (senderId r.2)
                           (default "" (r.1 tt))) reqs)
  = map (fun r => (senderId r.2, default "" (r.1 tt))) reqs.
Proof. induction reqs as [| r reqs IH]; [done |]. cbn. by rewrite <- IH. Qed.

(** C1, as the listener behaves: a mismatch is only looked for while a
    non-empty [pairedCollectionID] is bound. Then a request whose
    [collectionID] differs (an absent one included) stops the context
    without a reply and leaves the binding as it is. Otherwise the
    [collectionID] is bound, before the callback is asked for the code:
    when it yields none the context is stopped without a reply and the
    binding is the [collectionID] of the request, else exactly one reply
    carrying the code the callback yields for this request goes to the
    sender. So a run of requests with one [collectionID], each finding
    a code, never stops the context and answers each request; and after
    a non-empty [collectionID] is bound every request with another one
    stops it. *)
Theorem advertise_handshake :
  (∀ pc paired p,
     truthy_str paired = true → paired ≠ collectionID_of (data p) →
     stops (incomingMessageListener pc paired p).2 = true
     ∧ replies (incomingMessageListener pc paired p).2 = []
     ∧ (incomingMessageListener pc paired p).1 = paired)
  ∧ (∀ pc paired p,
       truthy_str paired = false ∨ paired = collectionID_of (data p) →
       truthy_str (pc tt) = false →
       stops (incomingMessageListener pc paired p).2 = true
       ∧ replies (incomingMessageListener pc paired p).2 = []
       ∧ (incomingMessageListener pc paired p).1
         = collectionID_of (data p))
  ∧ (∀ pc paired p code,
       truthy_str paired = false ∨ paired = collectionID_of (data p) →
       pc tt = Some code → code ≠ "" →
       incomingMessageListener pc paired p =
         (collectionID_of (data p),
          [SendCustomMessage namespace (senderId p) code]))
  ∧ (∀ cid reqs paired,
       truthy_str paired = false ∨ paired = cid →
       Forall (fun r => collectionID_of (data r.2) = cid
                        ∧ truthy_str (r.1 tt) = true) reqs →
       stops (session paired reqs).2 = false
       ∧ replies (session paired reqs).2
         = map (fun r => (senderId r.2, default "" (r.1 tt))) reqs)
  ∧ (∀ pc c p,
       c ≠ "" → collectionID_of (data p) ≠ Some c →
       stops (incomingMessageListener pc (Some c) p).2 = true).
Proof.
  split; [| split; [| split; [| split]]].
  - intros pc paired p Hset Hne. rewrite listener_mismatch by done.
    split; [apply stops_restart | done].
  - intros pc paired p Hacc Hcode. rewrite listener_accept, Hcode by done.
    split_and!; [apply stops_restart | done | done].
  - intros pc paired p code Hacc Hcode Hne. rewrite listener_accept by done.
    rewrite Hcode. cbn. by apply String.eqb_neq in Hne as ->.
  - intros cid reqs paired Hacc Hall.
    rewrite (session_same_collection cid) by done. cbn [snd].
    split; [| apply replies_sends].
    apply bool_decide_eq_false. intros Hin%list_elem_of_fmap.
    by destruct Hin as (r & ? & _).
  - intros pc c p Hc Hne. rewrite listener_mismatch; [apply stops_restart | |].
    + cbn. by apply String.eqb_neq in Hc as ->.
    + congruence.
Qed.

(** C1, where the listener parts from the claim: a [collectionID] that is
    newly provided after an absent one is accepted and answered; so is a
    new one after the empty string was bound; and a repeated request with
    the bound [collectionID] stops the context when no code is at hand. *)
Lemma advertise_handshake_counterexample :
  session None [(code_is (Some "123456"), request "s" None);
                (code_is (Some "123456"), request "s" (Some "c1"))]
  = (Some "c1", [SendCustomMessage namespace "s" "123456";
                 SendCustomMessage namespace "s" "123456"])
  ∧ incomingMessageListener (code_is (Some "123456")) (Some "")
      (request "s" (Some "c1"))
    = (Some "c1", [SendCustomMessage namespace "s" "123456"])
  ∧ stops (session None [(code_is (Some "123456"), request "s" (Some "c1"));
                         (code_is None, request "s" (Some "c1"))]).2 = true.
Proof. by vm_compute. Qed.

End ListenerFacts.

(** *** More facts about register *)

Section MoreRegisterFacts.

Context {W : Type}.
Variable generateKeyPair : W → KeyPair * W.
Variable toB64 : list Z → string.
Variable registerDevice : W → string → result string * W.
Variable wait : Z → W → W.

Lemma register_loop_trace fuel : ∀ pub pc w,
  truthy_str pc = false →
  let r := register_loop registerDevice wait fuel pub pc w in
  registered r.2 = replicate (calls r.2) pub
  ∧ logged r.2 = thrown r.2
  ∧ calls r.2 ≤ fuel
  ∧ match r.1.1 with
    | Some code =>
        code ≠ "" ∧ waited r.2 = (10000 * (Z.of_nat (calls r.2) - 1))%Z
    | None =>
        calls r.2 = fuel ∧ waited r.2 = (10000 * Z.of_nat (calls r.2))%Z
    end.
Proof.
  induction fuel as [| fuel IH]; intros pub pc w Hpc; cbn zeta.
  { cbn. by split_and!. }
  cbn [register_loop].
  destruct (registerDevice w pub) as [[code | e] w1].
  - destruct (truthy_str (Some code)) eqn:Hcode.
    + cbn. split_and!; [done | done | lia | | done].
      cbn in Hcode. intros ->. done.
    + specialize (IH pub (Some code) (wait 10000 w1) Hcode). cbn zeta in IH.
      destruct (register_loop registerDevice wait fuel pub (Some code) _)
        as [[res w2] evs]. cbn [fst snd] in IH |- *.
      destruct IH as (Hreg & Hlog & Hcalls & Hres). cbn.
      fold (registered evs) (logged evs) (thrown evs).
      rewrite Hreg. split_and!; [done | done | lia |].
      destruct res as [code' |]; destruct Hres as [? Hwait];
        (split; [done || lia | lia]).
  - rewrite Hpc.
    specialize (IH pub pc (wait 10000 w1) Hpc). cbn zeta in IH.
    destruct (register_loop registerDevice wait fuel pub pc _)
      as [[res w2] evs]. cbn [fst snd] in IH |- *.
    destruct IH as (Hreg & Hlog & Hcalls & Hres). cbn.
    fold (registered evs) (logged evs) (thrown evs).
    rewrite Hreg, Hlog. split_and!; [done | done | lia |].
    destruct res as [code' |]; destruct Hres as [? Hwait];
      (split; [done || lia | lia]).
Qed.

(** X13: However long [register] runs and however it ends: the keypair is
    generated once, and every attempt registers that same public key;
    every error the registration call throws is logged, once and in
    order; it waits 10 s after every attempt that yields no code, and
    not after the one that does; and a registration that is returned
    carries a pairing code that is not empty. *)
Theorem register_trace (fuel : nat) (w : W) :
  let r := register generateKeyPair toB64 registerDevice wait fuel w in
  registered r.2
  = replicate (calls r.2) (toB64 (publicKey (generateKeyPair w).1))
  ∧ logged r.2 = thrown r.2
  ∧ calls r.2 ≤ fuel
  ∧ match r.1.1 with
    | Some registration =>
        pairingCode registration ≠ ""
        ∧ publicKeyB64 registration
          = toB64 (publicKey (generateKeyPair w).1)
        ∧ privateKeyB64 registration
          = toB64 (privateKey (generateKeyPair w).1)
        ∧ waited r.2 = (10000 * (Z.of_nat (calls r.2) - 1))%Z
    | None =>
        calls r.2 = fuel ∧ waited r.2 = (10000 * Z.of_nat (calls r.2))%Z
    end.
Proof.
  cbn zeta. unfold register.
  destruct (generateKeyPair w) as [keypair w0]. cbn [fst].
  pose proof (register_loop_trace fuel (toB64 (publicKey keypair)) None w0
                eq_refl) as Hloop. cbn zeta in Hloop.
  destruct (register_loop registerDevice wait fuel _ None w0)
    as [[[code |] w1] evs]; cbn [fst snd] in Hloop |- *;
    destruct Hloop as (Hreg & Hlog & Hcalls & Hcode & Hwait);
    by split_and!.
Qed.

End MoreRegisterFacts.

(** *** More facts about the handshake listener *)

Section MoreListenerFacts.

Implicit Types (pc : unit → option string) (paired : option string)
  (p : ListenerProps).

(** The two ways a request ends. *)
Lemma listener_refuses_or_answers pc paired p :
  (stops (incomingMessageListener pc paired p).2 = true
   ∧ replies (incomingMessageListener pc paired p).2 = [])
  ∨ (stops (incomingMessageListener pc paired p).2 = false
     ∧ ∃ code,
         pc tt = Some code ∧ code ≠ ""
         ∧ replies (incomingMessageListener pc paired p).2
           = [(senderId p, code)]
         ∧ (incomingMessageListener pc paired p).2
           = [SendCustomMessage namespace (senderId p) code]
         ∧ (incomingMessageListener pc paired p).1
           = collectionID_of (data p)).
Proof.
  destruct (truthy_str paired) eqn:Hset.
  - destruct (decide (paired = collectionID_of (data p))) as [Heq | Hne].
    + rewrite listener_accept by by right.
      destruct (pc tt) as [code |] eqn:Hcode; cbn;
        [| left; split; [apply stops_restart | done]].
      destruct (String.eqb code "") eqn:Hempty; cbn;
        [left; split; [apply stops_restart | done] |].
      right. split; [apply stops_send |]. exists code.
      apply String.eqb_neq in Hempty. by split_and!.
    + rewrite listener_mismatch by done. left.
      split; [apply stops_restart | done].
  - rewrite listener_accept by by left.
    destruct (pc tt) as [code |] eqn:Hcode; cbn;
      [| left; split; [apply stops_restart | done]].
    destruct (String.eqb code "") eqn:Hempty; cbn;
      [left; split; [apply stops_restart | done] |].
    right. split; [apply stops_send |]. exists code.
    apply String.eqb_neq in Hempty. by split_and!.
Qed.

(** X14: Every request is either refused, by stopping the context without a
    reply, or answered, by one reply to its sender that carries the
    code the callback yields, which is not empty, without stopping the
    context; it is never both and never neither. *)
Theorem incomingMessageListener_outcome pc paired p :
  (stops (incomingMessageListener pc paired p).2 = true
   ∧ replies (incomingMessageListener pc paired p).2 = [])
  ∨ (stops (incomingMessageListener pc paired p).2 = false
     ∧ ∃ code,
         pc tt = Some code ∧ code ≠ ""
         ∧ replies (incomingMessageListener pc paired p).2
           = [(senderId p, code)]
         ∧ (incomingMessageListener pc paired p).2
           = [SendCustomMessage namespace (senderId p) code]
         ∧ (incomingMessageListener pc paired p).1
           = collectionID_of (data p)).
Proof. exact (listener_refuses_or_answers pc paired p). Qed.

Lemma stops_cons_send ns sender code effs :
  stops (SendCustomMessage ns sender code :: effs) = stops effs.
Proof.
  unfold stops. apply bool_decide_ext. rewrite elem_of_cons. naive_solver.
Qed.

(** X15: Once a collection ID that is not empty is bound, a session that has
    not been stopped has kept that binding, has only seen requests for
    that collection, and has answered each of them with the code of the
    moment. *)
Theorem session_binding_fixed (c : string)
    (reqs : list ((unit → option string) * ListenerProps)) :
  c ≠ "" →
  stops (session (Some c) reqs).2 = false →
  (session (Some c) reqs).1 = Some c
  ∧ Forall (fun r => collectionID_of (data r.2) = Some c) reqs
  ∧ replies (session (Some c) reqs).2
    = map (fun r => (senderId r.2, default "" (r.1 tt))) reqs.
Proof.
  intros Hc. induction reqs as [| [pc p] reqs IH]; [done |].
  cbn [session].
  destruct (listener_refuses_or_answers pc (Some c) p)
    as [[Hstop _] | (Hgo & code & Hcode & Hne & _ & Heffs & Hpaired)].
  { destruct (incomingMessageListener pc (Some c) p) as [paired' effs].
    cbn [snd] in Hstop. rewrite Hstop. cbn [snd]. congruence. }
  assert (collectionID_of (data p) = Some c) as Hcid.
  { destruct (decide (Some c = collectionID_of (data p))) as [<- | Hdiff];
      [done |].
    rewrite listener_mismatch in Hgo; [| | done].
    - cbn [snd] in Hgo. by rewrite stops_restart in Hgo.
    - cbn. by apply String.eqb_neq in Hc as ->. }
  destruct (incomingMessageListener pc (Some c) p) as [paired' effs].
  cbn [fst snd] in *. subst paired' effs. rewrite Hgo, Hcid.
  destruct (session (Some c) reqs) as [paired'' effs'].
  cbn [fst snd app] in *. rewrite stops_cons_send. intros Hrest.
  destruct (IH Hrest) as (-> & Hall & Hreplies).
  split_and!; [done | by constructor |]. cbn. fold (replies effs').
  by rewrite Hreplies, Hcode.
Qed.

End MoreListenerFacts.

(** Three requests for one collection, each answered with the code of
    its moment. *)
Lemma session_binding_fixed_witness :
  (session (Some "c1")
     [(code_is (Some "111111"), request "s" (Some "c1"));
      (code_is (Some "222222"), request "t" (Some "c1"))]).1 = Some "c1"
  ∧ Forall (fun r => collectionID_of (data r.2) = Some "c1")
      [(code_is (Some "111111"), request "s" (Some "c1"));
       (code_is (Some "222222"), request "t" (Some "c1"))]
  ∧ replies (session (Some "c1")
               [(code_is (Some "111111"), request "s" (Some "c1"));
                (code_is (Some "222222"), request "t" (Some "c1"))]).2
    = map (fun r => (senderId r.2, default "" (r.1 tt)))
        [(code_is (Some "111111"), request "s" (Some "c1"));
         (code_is (Some "222222"), request "t" (Some "c1"))].
Proof.
  apply (session_binding_fixed "c1"
           [(code_is (Some "111111"), request "s" (Some "c1"));
            (code_is (Some "222222"), request "t" (Some "c1"))]).
  - done.
  - by vm_compute.
Defined.

End PairFacts.

(** ** Facts about rendering *)

Module RenderFacts.

Import Render.

(** *** Facts about the local store *)

Section StoreFacts.

Variable Number_toString : Z → string.

Abbreviation js_toString := (js_toString Number_toString).
Abbreviation setItems := (setItems Number_toString).
Abbreviation storeCastData := (storeCastData Number_toString).

Implicit Types (props : list (string * JsValue)) (ls : gmap string string).

Lemma setItems_snoc props k v ls :
  setItems (props ++ [(k, v)]) ls = <[k := js_toString v]> (setItems props ls).
Proof. unfold setItems. by rewrite foldl_app. Qed.

(** The keys written are the keys of the payload. *)
Lemma setItems_dom props ls :
  dom (setItems props ls) = dom ls ∪ list_to_set props.*1.
Proof.
  induction props as [| [k v] props IH] using rev_ind.
  - cbn. set_solver.
  - rewrite setItems_snoc, dom_insert_L, IH, fmap_app, list_to_set_app_L.
    cbn. set_solver.
Qed.

(** No other entry is touched. *)
Lemma setItems_frame props ls k :
  k ∉ props.*1 → setItems props ls !! k = ls !! k.
Proof.
  induction props as [| [k' v] props IH] using rev_ind; [done |].
  rewrite fmap_app, not_elem_of_app. cbn. intros [Hk Hk'].
  rewrite setItems_snoc, lookup_insert_ne by set_solver. auto.
Qed.

(** Each key holds its value, as a string. *)
Lemma setItems_lookup props ls k v :
  NoDup props.*1 → (k, v) ∈ props →
  setItems props ls !! k = Some (js_toString v).
Proof.
  induction props as [| [k' v'] props IH] using rev_ind; [set_solver |].
  rewrite fmap_app, NoDup_app. cbn. intros (Hnd & Hfresh & _).
  rewrite setItems_snoc, elem_of_app, list_elem_of_singleton.
  intros [Hin | [= -> ->]]; [| apply lookup_insert_eq].
  rewrite lookup_insert_ne; [by apply IH |].
  intros ->. apply (Hfresh k); [| set_solver].
  apply list_elem_of_fmap. by exists (k, v).
Qed.

Lemma storeCastData_object payload ls ls' :
  storeCastData payload ls = Ok ls' →
  ∃ props, payload = JObj props ∧ ls' = setItems props ls.
Proof.
  unfold storeCastData.
  destruct payload; cbn; rewrite ?orb_true_r; try done.
  intros [= <-]. eauto.
Qed.

(** C8, as the store is written: [storeCastData] throws on a payload
    that is not an object; for an object it writes one entry per key of
    the payload, whatever the keys are, each holding the value as the
    string the engine converts it to, and leaves every other entry as it
    was. [readCastData] returns the entries [collectionKey] and
    [castToken] when both are there and throws when either is absent. *)
Theorem storeCastData_readCastData :
  (∀ payload ls ls',
     storeCastData payload ls = Ok ls' →
     ∃ props,
       payload = JObj props
       ∧ dom ls' = dom ls ∪ list_to_set props.*1
       ∧ (∀ k, k ∉ props.*1 → ls' !! k = ls !! k)
       ∧ (NoDup props.*1 →
          ∀ k v, (k, v) ∈ props → ls' !! k = Some (js_toString v)))
  ∧ (∀ props ls, storeCastData (JObj props) ls = Ok (setItems props ls))
  ∧ (∀ ls key token,
       ls !! "collectionKey" = Some key → ls !! "castToken" = Some token →
       readCastData ls = Ok {| collectionKey := key; castToken := token |})
  ∧ (∀ ls,
       ls !! "collectionKey" = None ∨ ls !! "castToken" = None →
       ∃ e, readCastData ls = Throw e).
Proof.
  split_and!.
  - intros payload ls ls' (props & -> & ->)%storeCastData_object.
    exists props. split_and!; [done | apply setItems_dom | |].
    + intros k. apply setItems_frame.
    + intros Hnd k v. by apply setItems_lookup.
  - done.
  - intros ls key token Hkey Htoken. unfold readCastData.
    by rewrite Hkey, Htoken.
  - intros ls [Hkey | Htoken]; unfold readCastData.
    + rewrite Hkey. by eexists.
    + rewrite Htoken. destruct (ls !! "collectionKey"); by eexists.
Qed.

End StoreFacts.

(** C8, where the store parts from the claim: a payload with a third key
    has all three keys written, and a payload with [castToken] alone is
    stored without complaint, after which [readCastData] throws. *)
Lemma storeCastData_counterexample :
  (∃ ls, storeCastData decimal
           (JObj [("collectionID", JNum 42); ("collectionKey", JStr "key");
                  ("castToken", JStr "token")]) ∅ = Ok ls
         ∧ size ls = 3
         ∧ ls !! "collectionID" = Some "42")
  ∧ (∃ ls, storeCastData decimal (JObj [("castToken", JStr "token")]) ∅
           = Ok ls
           ∧ size ls = 1
           ∧ readCastData ls = Throw "Expected a string, instead found null").
Proof.
  split; eexists; (split; [reflexivity |]); by vm_compute.
Qed.


(** *** Facts about the listing *)

Section ListingFacts.

Context {W : Type} `{Platform W}.

(** The watermark never goes back and bounds every record of the page. *)
Lemma advance_ge sinceTime diff :
  (sinceTime ≤ advance sinceTime diff)%Z
  ∧ Forall (fun f => (Enc.updationTime f ≤ advance sinceTime diff)%Z) diff.
Proof.
  unfold advance. revert sinceTime.
  induction diff as [| f diff IH]; intros sinceTime; cbn; [by split |].
  destruct (IH (Z.max sinceTime (Enc.updationTime f))) as [Hle Hall].
  split; [lia |]. constructor; [lia | done].
Qed.

(** It is the watermark before or the [updationTime] of a record. *)
Lemma advance_attained sinceTime diff :
  advance sinceTime diff = sinceTime
  ∨ Exists (fun f => advance sinceTime diff = Enc.updationTime f) diff.
Proof.
  unfold advance. revert sinceTime.
  induction diff as [| f diff IH]; intros sinceTime; cbn; [by left |].
  destruct (IH (Z.max sinceTime (Enc.updationTime f))) as [-> | Hex].
  - destruct (Z.max_spec sinceTime (Enc.updationTime f)) as [[_ ->] | [_ ->]];
      [right; by left | by left].
  - right. by right.
Qed.

Lemma getEncryptedCollectionFiles_loop_serves castToken w sinceTime pages w' :
  serves castToken w sinceTime pages w' →
  ∀ fuel files,
    (length pages ≤ fuel →
     getEncryptedCollectionFiles_loop fuel castToken files sinceTime w
     = (Some (Ok (files ++ flat_map (fun page => notDeleted (diff page)) pages)),
        w', watermarks sinceTime pages))
    ∧ (fuel < length pages →
       (getEncryptedCollectionFiles_loop fuel castToken files sinceTime w).1.1
       = None).
Proof.
  induction 1 as [w sinceTime page w' Hget Hlast
                 | w sinceTime page w' pages w'' Hget Hmore _ IH];
    intros [| fuel] files; cbn [length getEncryptedCollectionFiles_loop].
  - split; [lia | done].
  - rewrite Hget, Hlast. cbn. rewrite app_nil_r. split; [done | lia].
  - split; [lia | done].
  - rewrite Hget, Hmore.
    destruct (IH fuel (files ++ notDeleted (diff page))) as [Hrun Hshort].
    split; intros Hfuel.
    + rewrite Hrun by lia. cbn. by rewrite <- app_assoc.
    + assert (fuel < length pages) as Hlt%Hshort by lia.
      by destruct (getEncryptedCollectionFiles_loop _ _ _ _ _) as [[r w1] ?].
Qed.

(** The filter of the loop keeps the records that are not deleted, in
    their order. *)
Lemma notDeleted_filter (diff : list Enc.File) :
  notDeleted diff = filter (fun file => Enc.isDeleted file = false) diff.
Proof.
  unfold notDeleted. induction diff as [| file diff IH]; [done |].
  cbn [List.filter]. rewrite filter_cons, <- IH.
  by destruct (Enc.isDeleted file).
Qed.

(** C4: when the server answers the requests with the pages [pages], of
    which exactly the last reports no more pages, the listing is fetched
    in [length pages] requests, the first since 0 and each next one since
    the largest [updationTime] seen so far; the result is the records of
    every page whose [isDeleted] is false, in order, and no other; and
    the loop does not stop before the last page. *)
Theorem getEncryptedCollectionFiles_paginates (castToken : string) (w : W)
    (pages : list DiffResponse) (w' : W) (fuel : nat) :
  serves castToken w 0 pages w' →
  (length pages ≤ fuel →
   getEncryptedCollectionFiles fuel castToken w
   = (Some (Ok (flat_map
                  (fun page =>
                     filter (fun file => Enc.isDeleted file = false)
                       (diff page))
                  pages)),
      w', watermarks 0 pages))
  ∧ (fuel < length pages →
     (getEncryptedCollectionFiles fuel castToken w).1.1 = None)
  ∧ (∀ sinceTime page,
       (sinceTime ≤ advance sinceTime (diff page))%Z
       ∧ Forall (fun f => (Enc.updationTime f
                           ≤ advance sinceTime (diff page))%Z) (diff page)
       ∧ (advance sinceTime (diff page) = sinceTime
          ∨ Exists (fun f => advance sinceTime (diff page)
                             = Enc.updationTime f) (diff page))).
Proof.
  intros Hserves. unfold getEncryptedCollectionFiles.
  destruct (getEncryptedCollectionFiles_loop_serves _ _ _ _ _ Hserves fuel [])
    as [Hrun Hshort].
  split_and!; [| done |].
  - intros Hfuel. rewrite (Hrun Hfuel). cbn [app]. do 4 f_equal.
    apply flat_map_ext. intros page. apply notDeleted_filter.
  - intros sinceTime page. destruct (advance_ge sinceTime (diff page)).
    split_and!; [done | done | apply advance_attained].
Qed.

End ListingFacts.

(** The pages of the spec, [a, b] with more to come and then [c]: the
    listing is [a, b, c], fetched by one request since 0 and one since
    5. And a server that also holds a deleted record: the listing leaves
    it out, and the watermark still moves past it. *)
Lemma getEncryptedCollectionFiles_witness :
  getEncryptedCollectionFiles 2 "token" (server [file_a; file_b; file_c])
  = (Some (Ok [file_a; file_b; file_c]),
     server [file_a; file_b; file_c], [0; 5]%Z)
  ∧ getEncryptedCollectionFiles 2 "token"
      (server [file_a; deleted_file; file_b; file_c])
    = (Some (Ok [file_a; file_b; file_c]),
       server [file_a; deleted_file; file_b; file_c], [0; 4]%Z).
Proof.
  split.
  - apply (getEncryptedCollectionFiles_paginates "token"
             (server [file_a; file_b; file_c])
             [{| diff := [file_a; file_b]; hasMore := true |};
              {| diff := [file_c]; hasMore := false |}]
             (server [file_a; file_b; file_c]) 2).
    + eapply serves_more; [reflexivity | reflexivity |].
      eapply serves_last; reflexivity.
    + cbn. lia.
  - apply (getEncryptedCollectionFiles_paginates "token"
             (server [file_a; deleted_file; file_b; file_c])
             [{| diff := [file_a; deleted_file]; hasMore := true |};
              {| diff := [file_b; file_c]; hasMore := false |}]
             (server [file_a; deleted_file; file_b; file_c]) 2).
    + eapply serves_more; [reflexivity | reflexivity |].
      eapply serves_last; reflexivity.
    + cbn. lia.
Defined.

(** The same run: no record is listed twice, and one request is not
    enough. *)
Example getEncryptedCollectionFiles_pages :
  getEncryptedCollectionFiles 2 "token" (server [file_a; file_b; file_c])
  = (Some (Ok [file_a; file_b; file_c]), server [file_a; file_b; file_c],
     [0; 5]%Z)
  ∧ NoDup (Enc.id <$> [file_a; file_b; file_c])
  ∧ (getEncryptedCollectionFiles 1 "token"
       (server [file_a; file_b; file_c])).1.1 = None.
Proof.
  split_and!; [reflexivity | | reflexivity].
  by apply (bool_decide_unpack _); vm_compute.
Qed.

(** *** Facts about eligibility *)

Section EligibilityFacts.

Context {W : Type} `{Platform W}.

Lemma isImageOrLivePhoto_iff (file : EnteFile) :
  isImageOrLivePhoto file = true
  ↔ fileType (metadata file) = IMAGE ∨ fileType (metadata file) = LIVE_PHOTO.
Proof.
  unfold isImageOrLivePhoto.
  rewrite orb_true_iff, !bool_decide_eq_true. tauto.
Qed.

(** C6: a file is eligible exactly when it is an image or a live photo,
    its size does not exceed 100 MiB, and the extension of its title is
    not a non-web image extension. So an image of 150 MiB and a video
    are not eligible, and an image of 50 MiB and a live photo within the
    ceiling are, when their extension is renderable. *)
Theorem isFileEligibleForCast_iff (file : EnteFile) :
  (isFileEligibleForCast file = true
   ↔ (fileType (metadata file) = IMAGE
      ∨ fileType (metadata file) = LIVE_PHOTO)
     ∧ (fileSize (info file) ≤ 100 * 1024 * 1024)%Z
     ∧ isNonWebImageFileExtension
         (nameAndExtension (title (metadata file))).2 = false)
  ∧ (fileType (metadata file) = IMAGE →
     fileSize (info file) = (150 * 1024 * 1024)%Z →
     isFileEligibleForCast file = false)
  ∧ (fileType (metadata file) = IMAGE →
     fileSize (info file) = (50 * 1024 * 1024)%Z →
     isNonWebImageFileExtension
       (nameAndExtension (title (metadata file))).2 = false →
     isFileEligibleForCast file = true)
  ∧ (fileType (metadata file) = VIDEO → isFileEligibleForCast file = false)
  ∧ (fileType (metadata file) = LIVE_PHOTO →
     (fileSize (info file) ≤ 100 * 1024 * 1024)%Z →
     isNonWebImageFileExtension
       (nameAndExtension (title (metadata file))).2 = false →
     isFileEligibleForCast file = true).
Proof.
  assert (isFileEligibleForCast file = true
          ↔ (fileType (metadata file) = IMAGE
             ∨ fileType (metadata file) = LIVE_PHOTO)
            ∧ (fileSize (info file) ≤ 100 * 1024 * 1024)%Z
            ∧ isNonWebImageFileExtension
                (nameAndExtension (title (metadata file))).2 = false)
    as Hiff.
  { unfold isFileEligibleForCast. rewrite <- isImageOrLivePhoto_iff.
    destruct (isImageOrLivePhoto file); cbn [negb]; [| intuition congruence].
    destruct (Z.gtb_spec (fileSize (info file)) (100 * 1024 * 1024)) as [Hgt | Hle].
    - split; [done | lia].
    - destruct (isNonWebImageFileExtension _); intuition congruence. }
  split_and!; [done | | | |].
  - intros Himg Hsize. apply not_true_is_false. rewrite Hiff. lia.
  - intros Himg Hsize Hext. apply Hiff. split_and!; [by left | lia | done].
  - intros Hvideo. apply not_true_is_false. rewrite Hiff, Hvideo.
    intros [[? | ?] _]; discriminate.
  - intros Hlive Hsize Hext. apply Hiff. split_and!; [by right | lia | done].
Qed.

End EligibilityFacts.

(** On the scripted platform: an image of 150 MiB and a video are left
    out, an image of 50 MiB and a live photo are shown, and so is no
    image with a non-web extension. *)
Lemma isFileEligibleForCast_witness :
  isFileEligibleForCast (decrypted (record 1 "big.jpg" "image" (150 * MiB) 1))
    = false
  ∧ isFileEligibleForCast (decrypted file_a) = true
  ∧ isFileEligibleForCast (decrypted (record 5 "v.mp4" "video" MiB 1)) = false
  ∧ isFileEligibleForCast (decrypted file_b) = true
  ∧ isFileEligibleForCast (decrypted (record 6 "p.heic" "image" MiB 1)) = false.
Proof.
  split_and!.
  - destruct (isFileEligibleForCast_iff
                (decrypted (record 1 "big.jpg" "image" (150 * MiB) 1)))
      as (_ & Hbig & _).
    apply Hbig; reflexivity.
  - destruct (isFileEligibleForCast_iff (decrypted file_a))
      as (_ & _ & Himage & _).
    apply Himage; reflexivity.
  - destruct (isFileEligibleForCast_iff
                (decrypted (record 5 "v.mp4" "video" MiB 1)))
      as (_ & _ & _ & Hvideo & _).
    apply Hvideo; reflexivity.
  - destruct (isFileEligibleForCast_iff (decrypted file_b))
      as (_ & _ & _ & _ & Hlive).
    apply Hlive; [reflexivity | by vm_compute | reflexivity].
  - destruct (isFileEligibleForCast_iff
                (decrypted (record 6 "p.heic" "image" MiB 1)))
      as (Hiff & _).
    apply not_true_is_false. rewrite Hiff. by intros (_ & _ & ?).
Defined.

(** *** Facts about the generator *)

Section GeneratorFacts.

Context {W : Type} `{Platform W}.

Implicit Types (st : State (W:=W)) (evs : list Event) (dead : gset string)
  (castData : CastData) (haveEligibleFiles : bool).

Lemma objectURL_inj n m : objectURL n = objectURL m → n = m.
Proof. unfold objectURL. cbn. intros [= Hpretty]. by apply (inj pretty). Qed.

(** What the body of the [for] loop does, case by case: the record does
    not decrypt; it decrypts to a file that is not eligible; the file is
    eligible and cannot be rendered; the file is rendered and shown. *)
Lemma forBody_cases castData st haveEligibleFiles encryptedFile :
  (∃ e,
     decryptEnteFile encryptedFile (collectionKey castData) = Throw e
     ∧ forBody castData st haveEligibleFiles encryptedFile
       = (Some e, st, haveEligibleFiles, []))
  ∨ (∃ file,
       decryptEnteFile encryptedFile (collectionKey castData) = Ok file
       ∧ isFileEligibleForCast file = false
       ∧ forBody castData st haveEligibleFiles encryptedFile
         = (None, st, haveEligibleFiles, []))
  ∨ (∃ file e w,
       decryptEnteFile encryptedFile (collectionKey castData) = Ok file
       ∧ isFileEligibleForCast file = true
       ∧ createRenderableURL (castToken castData) file st
         = (Throw e, with_world w st)
       ∧ forBody castData st haveEligibleFiles encryptedFile
         = (None, with_world w st, haveEligibleFiles, [Skipped e]))
  ∨ (∃ file w url rest,
       decryptEnteFile encryptedFile (collectionKey castData) = Ok file
       ∧ isFileEligibleForCast file = true
       ∧ (createRenderableURL (castToken castData) file st).1
         = Ok (objectURL (issued st))
       ∧ urls st ++ [objectURL (issued st)] = url :: rest
       ∧ forBody castData st haveEligibleFiles encryptedFile
         = (None,
            {| world := resumed (pace w (lastYieldTime st)).1;
               issued := S (issued st);
               previousURLs := (revokeOldest (previousURLs st)).1 ++ [url];
               urls := rest;
               lastYieldTime := Date_now (pace w (lastYieldTime st)).1 |},
            true,
            (revokeOldest (previousURLs st)).2
            ++ (pace w (lastYieldTime st)).2
            ++ [Yielded (url, "")
                  ((revokeOldest (previousURLs st)).1 ++ [url])])).
Proof.
  unfold forBody.
  destruct (decryptEnteFile encryptedFile (collectionKey castData))
    as [file | e]; [| left; eauto].
  right. destruct (isFileEligibleForCast file) eqn:Heligible; cbn [negb];
    [| left; eauto].
  right.
  destruct (renderableImageBlob (castToken castData) file (world st))
    as [[blob | e] w] eqn:Hblob.
  - right.
    destruct (urls st ++ [objectURL (issued st)]) as [| url rest] eqn:Hurls;
      [by destruct (urls st) |].
    exists file, w, url, rest. unfold createRenderableURL. rewrite Hblob.
    cbn [urls previousURLs world lastYieldTime issued fst]. rewrite Hurls.
    destruct (revokeOldest (previousURLs st)) as [kept revoked].
    destruct (pace w (lastYieldTime st)) as [w' waited]. by split_and!.
  - left. exists file, e, w. unfold createRenderableURL, with_world.
    rewrite Hblob. by split_and!.
Qed.

Lemma yielded_app evs evs' : yielded (evs ++ evs') = yielded evs ++ yielded evs'.
Proof. apply omap_app. Qed.

Lemma revokeOldest_yielded (queue : list string) :
  yielded (revokeOldest queue).2 = [].
Proof. unfold revokeOldest. by destruct (1 <? length queue), queue. Qed.

Lemma pace_yielded (w : W) lastYieldTime :
  yielded (pace w lastYieldTime).2 = [].
Proof. unfold pace. by destruct (_ && _). Qed.

Lemma elem_of_yielded evs urlPair :
  urlPair ∈ yielded evs ↔ ∃ retained, Yielded urlPair retained ∈ evs.
Proof.
  unfold yielded. rewrite list_elem_of_omap. split.
  - intros ([] & Hin & Heq); simplify_eq. eauto.
  - intros [retained Hin]. by exists (Yielded urlPair retained).
Qed.

(** One file yields nothing and leaves [haveEligibleFiles] as it is, or
    yields one pair with an empty second component and sets it. Only a
    record that does not decrypt makes the body throw. *)
Lemma forBody_yielded castData st haveEligibleFiles encryptedFile :
  let r := forBody castData st haveEligibleFiles encryptedFile in
  (yielded r.2 = [] ∧ r.1.2 = haveEligibleFiles
   ∧ (r.1.1.1 = None
      ∨ ∃ e, r.1.1.1 = Some e
             ∧ decryptEnteFile encryptedFile (collectionKey castData) = Throw e))
  ∨ (∃ url, yielded r.2 = [(url, "")] ∧ r.1.2 = true ∧ r.1.1.1 = None).
Proof.
  destruct (forBody_cases castData st haveEligibleFiles encryptedFile) as
    [(e & Hdec & ->) | [(file & _ & _ & ->) | [(file & e & w & _ & _ & _ & ->)
    | (file & w & url & rest & _ & _ & _ & _ & ->)]]]; cbn.
  - left. split_and!; [done | done |]. right. eauto.
  - left. split_and!; [done | done |]. by left.
  - left. split_and!; [done | done |]. by left.
  - right. exists url.
    by rewrite !yielded_app, revokeOldest_yielded, pace_yielded.
Qed.

Lemma forFiles_yielded castData encryptedFiles : ∀ st haveEligibleFiles,
  let r := forFiles castData st haveEligibleFiles encryptedFiles in
  Forall (fun urlPair => urlPair.2 = "") (yielded r.2)
  ∧ r.1.2 = haveEligibleFiles || negb (bool_decide (yielded r.2 = []))
  ∧ (r.1.1.1 = None
     ∨ ∃ e encryptedFile,
         r.1.1.1 = Some e ∧ encryptedFile ∈ encryptedFiles
         ∧ decryptEnteFile encryptedFile (collectionKey castData) = Throw e).
Proof.
  induction encryptedFiles as [| f files IH]; intros st have; cbn zeta.
  { cbn. rewrite orb_false_r. split_and!; [done | done | by left]. }
  cbn [forFiles].
  pose proof (forBody_yielded castData st have f) as Hbody. cbn zeta in Hbody.
  destruct (forBody castData st have f) as [[[err st1] have1] evs1].
  cbn [fst snd] in Hbody.
  destruct Hbody as [(Hnone & -> & [-> | (e & -> & Hdec)])
                    | (url & Hone & -> & ->)].
  - specialize (IH st1 have). cbn zeta in IH.
    destruct (forFiles castData st1 have files) as [[[err st2] have2] evs2].
    cbn [fst snd] in IH |- *. destruct IH as (Hall & -> & Herr).
    rewrite yielded_app, Hnone. cbn [app]. split_and!; [done | done |].
    destruct Herr as [-> | (e & f' & -> & Hin & Hdec)]; [by left |].
    right. exists e, f'. split_and!; [done | set_solver | done].
  - cbn [fst snd]. rewrite Hnone. cbn. rewrite orb_false_r.
    split_and!; [done | done |]. right. exists e, f.
    split_and!; [done | set_solver | done].
  - specialize (IH st1 true). cbn zeta in IH.
    destruct (forFiles castData st1 true files) as [[[err st2] have2] evs2].
    cbn [fst snd] in IH |- *. destruct IH as (Hall & -> & Herr).
    rewrite yielded_app, Hone. cbn. rewrite orb_true_r.
    split_and!; [by constructor | done |].
    destruct Herr as [-> | (e & f' & -> & Hin & Hdec)]; [by left |].
    right. exists e, f'. split_and!; [done | set_solver | done].
Qed.

(** One pass: what it yields, and how it ends. *)
Lemma cycle_yielded pages castData st :
  let r := cycle pages castData st in
  Forall (fun urlPair => urlPair.2 = "") (yielded r.2)
  ∧ (r.1.1 = Some Done → yielded r.2 = [])
  ∧ (r.1.1 = None → yielded r.2 ≠ [])
  ∧ (∀ e, r.1.1 = Some (Threw e) →
       (∃ w asked,
          getEncryptedCollectionFiles pages (castToken castData) (world st)
          = (Some (Throw e), w, asked))
       ∨ (∃ files w asked encryptedFile,
            getEncryptedCollectionFiles pages (castToken castData) (world st)
            = (Some (Ok files), w, asked)
            ∧ encryptedFile ∈ files
            ∧ decryptEnteFile encryptedFile (collectionKey castData)
              = Throw e)).
Proof.
  unfold cycle.
  destruct (getEncryptedCollectionFiles pages (castToken castData) (world st))
    as [[[[files | e] |] w] asked]; cbn zeta.
  - pose proof (shuffled_permutation w files) as Hperm.
    destruct (shuffled w files) as [encryptedFiles w1]. cbn [fst] in Hperm.
    pose proof (forFiles_yielded castData encryptedFiles (with_world w1 st)
                  false) as Hfor. cbn zeta in Hfor.
    destruct (forFiles castData (with_world w1 st) false encryptedFiles)
      as [[[err st1] have1] evs1]. cbn [fst snd] in Hfor.
    destruct Hfor as (Hall & -> & Herr). cbn [orb].
    destruct Herr as [-> | (e & f & -> & Hin & Hdec)].
    + destruct (bool_decide (yielded evs1 = [])) eqn:Hempty; cbn.
      * apply bool_decide_eq_true in Hempty. by split_and!.
      * apply bool_decide_eq_false in Hempty. by split_and!.
    + cbn. split_and!; [done | done | done |].
      intros e' [= <-]. right. exists files, w, asked, f.
      split_and!; [done | by rewrite <- Hperm | done].
  - cbn. split_and!; [done | done | done |]. intros e' [= <-]. left. eauto.
  - cbn. by split_and!.
Qed.

Lemma whileTrue_yielded pages cycles castData : ∀ st,
  Forall (fun urlPair => urlPair.2 = "")
    (yielded (whileTrue pages cycles castData st).2).
Proof.
  induction cycles as [| cycles IH]; intros st; [by constructor |].
  cbn [whileTrue].
  pose proof (cycle_yielded pages castData st) as (Hall & _). cbn zeta in Hall.
  destruct (cycle pages castData st) as [[[outcome |] st1] evs1]; [done |].
  specialize (IH st1).
  destruct (whileTrue pages cycles castData st1) as [[outcome st2] evs2].
  cbn [snd] in *. rewrite yielded_app. by apply Forall_app.
Qed.

(** C10: the second component of every pair the generator yields is the
    empty string. *)
Theorem renderableImageURLs_next_empty (pages cycles : nat)
    (castData : CastData) (w : W) :
  Forall (fun ev => match ev with
                    | Yielded urlPair _ => urlPair.2 = ""
                    | _ => True
                    end)
    (renderableImageURLs pages cycles castData w).2.
Proof.
  unfold renderableImageURLs. apply Forall_forall.
  intros [| | | urlPair retained] Hin; try done.
  pose proof (whileTrue_yielded pages cycles castData
                {| world := w; issued := 0; previousURLs := []; urls := [];
                   lastYieldTime := (Date_now w - (slideDuration - 2500))%Z |})
    as Hall.
  rewrite Forall_forall in Hall. apply Hall, elem_of_yielded. eauto.
Qed.

(** What makes [createRenderableURL] throw: the request for the file
    fails or has no data, the content does not decrypt, the live photo
    does not decode, or no MIME type is detected. *)
Lemma createRenderableURL_failures castToken (file : EnteFile) st :
  isImageOrLivePhoto file = true →
  let url := getCastFileURL (id file) in
  let resp := HTTPService_get_file (world st) url castToken in
  let decrypting encrypted :=
    fileHeader ← fromB64 (decryptionHeader (Render.file file));
    decryptFile encrypted fileHeader (key file) in
  (∀ e, resp.1 = Throw e →
     createRenderableURL castToken file st = (Throw e, with_world resp.2 st))
  ∧ (resp.1 = Ok None →
     createRenderableURL castToken file st
     = (Throw ("Failed to get " +:+ url), with_world resp.2 st))
  ∧ (∀ encrypted e,
       resp.1 = Ok (Some encrypted) → decrypting encrypted = Throw e →
       createRenderableURL castToken file st
       = (Throw e, with_world resp.2 st))
  ∧ (∀ encrypted blob e,
       resp.1 = Ok (Some encrypted) → decrypting encrypted = Ok blob →
       fileType (metadata file) = LIVE_PHOTO →
       decodeLivePhoto (title (metadata file)) blob = Throw e →
       createRenderableURL castToken file st
       = (Throw e, with_world resp.2 st))
  ∧ (∀ encrypted blob,
       resp.1 = Ok (Some encrypted) → decrypting encrypted = Ok blob →
       fileType (metadata file) ≠ LIVE_PHOTO →
       detectMediaMIMEType (title (metadata file)) blob = Ok None →
       createRenderableURL castToken file st
       = (Throw ("Could not detect MIME type for file "
                 +:+ title (metadata file)),
          with_world resp.2 st)).
Proof.
  intros Himage url resp decrypting. subst url resp decrypting.
  unfold createRenderableURL, renderableImageBlob, downloadFile, with_world.
  rewrite Himage. cbn [negb].
  destruct (HTTPService_get_file _ _ _) as [r w1]. cbn [fst snd].
  unfold mbind, mret, result_bind, result_ret. split_and!.
  - by intros e ->.
  - by intros ->.
  - by intros encrypted e -> ->.
  - intros encrypted blob e -> -> Hlive Hdecode.
    by rewrite bool_decide_eq_true_2, Hdecode.
  - intros encrypted blob -> -> Hlive Hmime.
    by rewrite bool_decide_eq_false_2, Hmime.
Qed.

(** The failures of the fetch, of the decryption of the content and of
    the decoding of a live photo each end in the file being skipped. *)
Lemma forBody_skips_failures castData st haveEligibleFiles encryptedFile
    (file : EnteFile) :
  decryptEnteFile encryptedFile (collectionKey castData) = Ok file →
  isFileEligibleForCast file = true →
  let resp := HTTPService_get_file (world st) (getCastFileURL (id file))
                (castToken castData) in
  let decrypting encrypted :=
    fileHeader ← fromB64 (decryptionHeader (Render.file file));
    decryptFile encrypted fileHeader (key file) in
  let skipped e :=
    forBody castData st haveEligibleFiles encryptedFile
    = (None, with_world resp.2 st, haveEligibleFiles, [Skipped e]) in
  (∀ e, resp.1 = Throw e → skipped e)
  ∧ (∀ encrypted e,
       resp.1 = Ok (Some encrypted) → decrypting encrypted = Throw e →
       skipped e)
  ∧ (∀ encrypted blob e,
       resp.1 = Ok (Some encrypted) → decrypting encrypted = Ok blob →
       fileType (metadata file) = LIVE_PHOTO →
       decodeLivePhoto (title (metadata file)) blob = Throw e →
       skipped e).
Proof.
  intros Hdec Heligible resp decrypting skipped.
  assert (isImageOrLivePhoto file = true) as Himage.
  { unfold isFileEligibleForCast in Heligible.
    by destruct (isImageOrLivePhoto file). }
  assert (∀ e, createRenderableURL (castToken castData) file st
               = (Throw e, with_world resp.2 st) → skipped e) as Hskip.
  { intros e Hcreate. subst skipped. cbn beta. unfold forBody.
    by rewrite Hdec, Heligible, Hcreate. }
  destruct (createRenderableURL_failures (castToken castData) file st Himage)
    as (Hfetch & _ & Hdecrypt & Hdecode & _).
  split_and!.
  - intros e He. by apply Hskip, Hfetch.
  - intros encrypted e Hresp He. by apply Hskip, (Hdecrypt encrypted).
  - intros encrypted blob e Hresp Hblob Hlive He.
    by apply Hskip, (Hdecode encrypted blob).
Qed.



(** **** Retention *)

Lemma retention_app dead evs evs' :
  retention dead (evs ++ evs')
  ↔ retention dead evs ∧ retention (revokedIn evs ∪ dead) evs'.
Proof.
  revert dead. induction evs as [| [url | e | ms | urlPair retained] evs IH];
    intros dead; cbn [app retention revokedIn].
  - rewrite (left_id_L ∅ (∪)). tauto.
  - rewrite IH.
    by replace (revokedIn evs ∪ ({[url]} ∪ dead))
      with ({[url]} ∪ revokedIn evs ∪ dead) by set_solver.
  - apply IH.
  - apply IH.
  - rewrite IH. tauto.
Qed.

Lemma revokedIn_app evs evs' :
  revokedIn (evs ++ evs') = revokedIn evs ∪ revokedIn evs'.
Proof.
  induction evs as [| [] evs IH]; cbn [app revokedIn]; rewrite ?IH;
    set_solver.
Qed.

Lemma pace_revokedIn (w : W) lastYieldTime :
  revokedIn (pace w lastYieldTime).2 = ∅
  ∧ ∀ dead, retention dead (pace w lastYieldTime).2.
Proof. unfold pace. by destruct (_ && _). Qed.

(** The queue is cut to its last element once it holds two. *)
Lemma revokeOldest_cases (queue : list string) :
  length queue ≤ 2 →
  (length queue ≤ 1 ∧ revokeOldest queue = (queue, []))
  ∨ (∃ older newer,
       queue = [older; newer]
       ∧ revokeOldest queue = ([newer], [Revoked older])).
Proof.
  destruct queue as [| older [| newer [| ? ?]]]; cbn; intros Hlen;
    [left; split; [lia | done].. | right; eauto | lia].
Qed.

(** The body of the loop keeps the retention invariant, and what it
    yields respects it. *)
Lemma forBody_retains dead castData st haveEligibleFiles encryptedFile :
  retains dead st →
  let r := forBody castData st haveEligibleFiles encryptedFile in
  retention dead r.2 ∧ retains (revokedIn r.2 ∪ dead) r.1.1.2.
Proof.
  intros Hinv.
  destruct (forBody_cases castData st haveEligibleFiles encryptedFile) as
    [(e & _ & ->) | [(file & _ & _ & ->) | [(file & e & w & _ & _ & _ & ->)
    | (file & w & url & rest & _ & _ & _ & Hurls & ->)]]];
    cbn [fst snd retention revokedIn]; rewrite ?(left_id_L ∅ (∪));
    try done.
  destruct Hinv as (Hnone & Hlen & Hnodup & Hqueue & Hdead).
  rewrite Hnone in Hurls. injection Hurls as <- <-.
  destruct (pace_revokedIn w (lastYieldTime st)) as [Hpace_none Hpace].
  assert (∀ u, (∃ n, n < issued st ∧ u = objectURL n) →
               u ≠ objectURL (issued st)) as Hfresh.
  { intros u (n & Hn & ->) Heq%objectURL_inj. lia. }
  rewrite !retention_app, !revokedIn_app, Hpace_none.
  cbn [retention revokedIn].
  destruct (revokeOldest_cases (previousURLs st) Hlen)
    as [[Hshort ->] | (older & newer & Hqueue_eq & ->)];
    cbn [fst snd retention revokedIn].
  - split.
    + split_and!; [done | apply Hpace | | | done].
      * rewrite length_app. cbn. lia.
      * intros u [Hu | ->%list_elem_of_singleton]%elem_of_app.
        -- destruct (Hqueue u Hu). set_solver.
        -- intros Hin. apply (Hfresh (objectURL (issued st))); [| done].
           apply Hdead. set_solver.
    + unfold retains. cbn [urls previousURLs issued].
      split_and!; [done | rewrite length_app; cbn; lia | | |].
      * apply NoDup_app. split_and!; [done | | apply NoDup_singleton].
        intros u Hu ->%list_elem_of_singleton.
        destruct (Hqueue _ Hu) as [_ Hissued]. by apply Hfresh in Hissued.
      * intros u [Hu | ->%list_elem_of_singleton]%elem_of_app.
        -- destruct (Hqueue u Hu) as [Hlive (n & Hn & ->)].
           split; [set_solver | exists n; split; [lia | done]].
        -- split; [| exists (issued st); split; [lia | done]].
           intros Hin. apply (Hfresh (objectURL (issued st))); [| done].
           apply Hdead. set_solver.
      * intros u Hu. destruct (Hdead u) as (n & Hn & ->); [set_solver |].
        exists n. split; [lia | done].
  - rewrite Hqueue_eq in Hnodup, Hqueue.
    apply NoDup_cons in Hnodup as [Hne _].
    assert (older ≠ newer) as Hne' by set_solver. clear Hne.
    destruct (Hqueue older) as [Holder Holder_issued]; [set_solver |].
    destruct (Hqueue newer) as [Hnewer Hnewer_issued]; [set_solver |].
    pose proof (Hfresh _ Holder_issued) as Hfresh_older.
    pose proof (Hfresh _ Hnewer_issued) as Hfresh_newer.
    assert (objectURL (issued st) ∉ dead) as Hfresh_dead.
    { intros Hin. by apply (Hfresh _ (Hdead _ Hin)). }
    split.
    + split_and!; [done | apply Hpace | done | | done]. set_solver.
    + unfold retains. cbn [urls previousURLs issued app].
      split_and!; [done | done | | |].
      * apply NoDup_cons. split; [set_solver | apply NoDup_singleton].
      * intros u [-> | ->%list_elem_of_singleton]%elem_of_cons.
        -- destruct Hnewer_issued as (n & Hn & ->).
           split; [set_solver | exists n; split; [lia | done]].
        -- split; [set_solver | exists (issued st); split; [lia | done]].
      * intros u Hu.
        assert (u = older ∨ u ∈ dead) as [-> | Hin] by set_solver.
        -- destruct Holder_issued as (n & Hn & ->).
           exists n. split; [lia | done].
        -- destruct (Hdead u Hin) as (n & Hn & ->).
           exists n. split; [lia | done].
Qed.

Lemma forFiles_retains castData encryptedFiles : ∀ dead st haveEligibleFiles,
  retains dead st →
  let r := forFiles castData st haveEligibleFiles encryptedFiles in
  retention dead r.2 ∧ retains (revokedIn r.2 ∪ dead) r.1.1.2.
Proof.
  induction encryptedFiles as [| f files IH]; intros dead st have Hinv;
    cbn zeta.
  { cbn. by rewrite (left_id_L ∅ (∪)). }
  cbn [forFiles].
  pose proof (forBody_retains dead castData st have f Hinv) as Hbody.
  cbn zeta in Hbody.
  destruct (forBody castData st have f) as [[[[e |] st1] have1] evs1];
    cbn [fst snd] in Hbody |- *; [done |].
  destruct Hbody as [Hevs1 Hinv1].
  specialize (IH _ st1 have1 Hinv1). cbn zeta in IH.
  destruct (forFiles castData st1 have1 files) as [[[err st2] have2] evs2].
  cbn [fst snd] in IH |- *. destruct IH as [Hevs2 Hinv2].
  rewrite retention_app, revokedIn_app.
  by replace (revokedIn evs1 ∪ revokedIn evs2 ∪ dead)
    with (revokedIn evs2 ∪ (revokedIn evs1 ∪ dead)) by set_solver.
Qed.

Lemma cycle_retains pages castData dead st :
  retains dead st →
  let r := cycle pages castData st in
  retention dead r.2 ∧ retains (revokedIn r.2 ∪ dead) r.1.2.
Proof.
  intros Hinv. unfold cycle.
  destruct (getEncryptedCollectionFiles pages (castToken castData) (world st))
    as [[[[files | e] |] w] asked]; cbn zeta;
    [| by cbn; rewrite (left_id_L ∅ (∪))..].
  destruct (shuffled w files) as [encryptedFiles w1].
  pose proof (forFiles_retains castData encryptedFiles dead
                (with_world w1 st) false Hinv) as Hfor. cbn zeta in Hfor.
  destruct (forFiles castData (with_world w1 st) false encryptedFiles)
    as [[[[e |] st1] have1] evs1]; cbn [fst snd] in Hfor |- *; [done |].
  by destruct have1.
Qed.

Lemma whileTrue_retains pages cycles castData : ∀ dead st,
  retains dead st →
  retention dead (whileTrue pages cycles castData st).2.
Proof.
  induction cycles as [| cycles IH]; intros dead st Hinv; [done |].
  cbn [whileTrue].
  pose proof (cycle_retains pages castData dead st Hinv) as Hcycle.
  cbn zeta in Hcycle.
  destruct (cycle pages castData st) as [[[outcome |] st1] evs1];
    cbn [fst snd] in Hcycle |- *; [by destruct Hcycle |].
  destruct Hcycle as [Hevs1 Hinv1]. specialize (IH _ st1 Hinv1).
  destruct (whileTrue pages cycles castData st1) as [[outcome st2] evs2].
  cbn [snd] in IH |- *. by rewrite retention_app.
Qed.

(** What [retention] says of the positions of a trace. *)
Lemma retention_lookup evs : ∀ dead,
  retention dead evs →
  (∀ i urlPair retained,
     evs !! i = Some (Yielded urlPair retained) →
     length retained ≤ 2 ∧ ∀ url, url ∈ dead → url ∉ retained)
  ∧ (∀ i j url urlPair retained,
       i < j →
       evs !! i = Some (Revoked url) →
       evs !! j = Some (Yielded urlPair retained) →
       url ∉ retained).
Proof.
  induction evs as [| ev evs IH]; intros dead Hret; [by split |].
  assert (∃ dead', retention dead' evs ∧ dead ⊆ dead'
                   ∧ (∀ url, ev = Revoked url → url ∈ dead')
                   ∧ (∀ urlPair retained, ev = Yielded urlPair retained →
                        length retained ≤ 2
                        ∧ ∀ url, url ∈ dead → url ∉ retained))
    as (dead' & Hret' & Hsub & Hrevoked & Hyielded).
  { destruct ev as [url | e | ms | urlPair retained]; cbn in Hret.
    - exists ({[url]} ∪ dead). split_and!; [done | set_solver | | done].
      intros ? [= <-]. set_solver.
    - by exists dead.
    - by exists dead.
    - destruct Hret as (Hlen & Hdead & Hret). exists dead.
      split_and!; [done | done | done |].
      intros ? ? [= <- <-]. split; [done |]. intros url Hin Hin'.
      by apply (Hdead url). }
  destruct (IH dead' Hret') as [IHyield IHrevoke]. split.
  - intros [| i] urlPair retained Hi; cbn in Hi.
    + injection Hi as ->. by apply (Hyielded urlPair retained).
    + destruct (IHyield i urlPair retained Hi) as [Hlen Hdead].
      split; [done |]. intros url Hin. apply Hdead. set_solver.
  - intros [| i] [| j] url urlPair retained Hij Hi Hj; cbn in Hi, Hj;
      try lia.
    + injection Hi as ->.
      destruct (IHyield j urlPair retained Hj) as [_ Hdead].
      by apply Hdead, Hrevoked.
    + apply (IHrevoke i j url urlPair retained); [lia | done | done].
Qed.

(** C5, as the generator is written: an error thrown while the
    renderable URL of an eligible file is created (fetch, decryption of
    the content, decoding, MIME detection) is logged and the file is
    skipped, with nothing yielded and no variable of the generator
    changed; so a pass over records that all decrypt never throws. The
    decryption of a record, of its key or its metadata, is outside the
    [try]: its error leaves the generator, and a pass throws only for
    that or for a failure to fetch the listing. *)
Theorem renderableImageURLs_skips_unrenderable (castData : CastData)
    (st : State (W:=W)) (haveEligibleFiles : bool) :
  (∀ encryptedFile file e st1,
     decryptEnteFile encryptedFile (collectionKey castData) = Ok file →
     isFileEligibleForCast file = true →
     createRenderableURL (castToken castData) file st = (Throw e, st1) →
     forBody castData st haveEligibleFiles encryptedFile
     = (None, st1, haveEligibleFiles, [Skipped e])
     ∧ previousURLs st1 = previousURLs st ∧ urls st1 = urls st
     ∧ issued st1 = issued st ∧ lastYieldTime st1 = lastYieldTime st)
  ∧ (∀ encryptedFiles,
       Forall (fun encryptedFile =>
                 is_ok (decryptEnteFile encryptedFile (collectionKey castData))
                 = true) encryptedFiles →
       (forFiles castData st haveEligibleFiles encryptedFiles).1.1.1 = None)
  ∧ (∀ pages e,
       (cycle pages castData st).1.1 = Some (Threw e) →
       (∃ w asked,
          getEncryptedCollectionFiles pages (castToken castData) (world st)
          = (Some (Throw e), w, asked))
       ∨ (∃ files w asked encryptedFile,
            getEncryptedCollectionFiles pages (castToken castData) (world st)
            = (Some (Ok files), w, asked)
            ∧ encryptedFile ∈ files
            ∧ decryptEnteFile encryptedFile (collectionKey castData)
              = Throw e))
  ∧ (∀ encryptedFile e,
       decryptEnteFile encryptedFile (collectionKey castData) = Throw e →
       forBody castData st haveEligibleFiles encryptedFile
       = (Some e, st, haveEligibleFiles, []))
  ∧ (∀ encryptedFile file,
       decryptEnteFile encryptedFile (collectionKey castData) = Ok file →
       isFileEligibleForCast file = true →
       let resp := HTTPService_get_file (world st) (getCastFileURL (id file))
                     (castToken castData) in
       let decrypting encrypted :=
         fileHeader ← fromB64 (decryptionHeader (Render.file file));
         decryptFile encrypted fileHeader (key file) in
       let skipped e :=
         forBody castData st haveEligibleFiles encryptedFile
         = (None, with_world resp.2 st, haveEligibleFiles, [Skipped e]) in
       (∀ e, resp.1 = Throw e → skipped e)
       ∧ (∀ encrypted e,
            resp.1 = Ok (Some encrypted) → decrypting encrypted = Throw e →
            skipped e)
       ∧ (∀ encrypted blob e,
            resp.1 = Ok (Some encrypted) → decrypting encrypted = Ok blob →
            fileType (metadata file) = LIVE_PHOTO →
            decodeLivePhoto (title (metadata file)) blob = Throw e →
            skipped e)).
Proof.
  split_and!; [| | | | apply forBody_skips_failures].
  - intros f file e st1 Hdec Heligible Hcreate.
    destruct (forBody_cases castData st haveEligibleFiles f) as
      [(e' & Hdec' & _) | [(file' & Hdec' & Hne & _)
      | [(file' & e' & w & Hdec' & _ & Hcreate' & ->)
      | (file' & w & url & rest & Hdec' & _ & Hcreate' & _)]]];
      rewrite Hdec in Hdec'; try discriminate; injection Hdec' as <-.
    + congruence.
    + rewrite Hcreate in Hcreate'. by injection Hcreate' as <- ->.
    + by rewrite Hcreate in Hcreate'.
  - intros files Hall.
    destruct (forFiles_yielded castData files st haveEligibleFiles)
      as (_ & _ & [Hnone | (e & f & _ & Hin & Hdec)]); [done |].
    rewrite Forall_forall in Hall. specialize (Hall f Hin).
    by rewrite Hdec in Hall.
  - intros pages. apply cycle_yielded.
  - intros f e Hdec.
    destruct (forBody_cases castData st haveEligibleFiles f) as
      [(e' & Hdec' & ->) | [(file' & Hdec' & _)
      | [(file' & e' & w & Hdec' & _) | (file' & w & url & rest & Hdec' & _)]]];
      rewrite Hdec in Hdec'; try discriminate. by injection Hdec' as <-.
Qed.

End GeneratorFacts.

(** C5, where the generator parts from the claim: a record whose key
    does not decrypt, and one whose metadata does not, each end the
    generator with the error, after the one slide that came before. *)
Lemma renderableImageURLs_decrypt_counterexample :
  (renderableImageURLs 5 3 castData0
     (server [file_a; corrupt_key; file_b])).1.1
  = Threw "Failed to decrypt"
  ∧ yielded (renderableImageURLs 5 3 castData0
               (server [file_a; corrupt_key; file_b])).2
    = [("blob:0", "")]
  ∧ (renderableImageURLs 5 3 castData0
       (server [file_a; corrupt_metadata; file_b])).1.1
    = Threw "Failed to decrypt".
Proof. by vm_compute. Qed.

(** On the scripted platform, with the content of [b] missing on the
    server: [b] is skipped and the pass goes on to [a]. *)
Example renderableImageURLs_skips_missing :
  (forFiles castData0
     (started {| records := []; missing := [2]%Z; time := 0 |}) false
     [file_c; file_b; file_a]).1.1.1 = None
  ∧ (forFiles castData0
       (started {| records := []; missing := [2]%Z; time := 0 |}) false
       [file_c; file_b; file_a]).2
    = [Waited 2500; Yielded ("blob:0", "") ["blob:0"];
       Skipped "Request failed with status code 404";
       Yielded ("blob:1", "") ["blob:0"; "blob:1"]].
Proof. by vm_compute. Qed.


(** The same from the start of the generator, next to a collection with
    one image, which is shown once in each of the two passes allowed. *)
Example renderableImageURLs_passes :
  (renderableImageURLs 5 7 castData0
     (server [record 5 "v.mp4" "video" MiB 1])).1.1 = Done
  ∧ (renderableImageURLs 5 7 castData0
       (server [record 5 "v.mp4" "video" MiB 1])).2 = []
  ∧ (renderableImageURLs 5 2 castData0 (server [file_a])).1.1 = Suspended
  ∧ yielded (renderableImageURLs 5 2 castData0 (server [file_a])).2
    = [("blob:0", ""); ("blob:1", "")].
Proof. by vm_compute. Qed.

(** Two passes over four images: eight slides, never more than two URLs
    retained, each URL revoked two slides after it was shown. *)
Example renderableImageURLs_retention :
  (renderableImageURLs 5 2 castData0
     (server [file_a; file_b; file_c; file_d])).2
  = [Waited 2500;
     Yielded ("blob:0", "") ["blob:0"];
     Yielded ("blob:1", "") ["blob:0"; "blob:1"];
     Revoked "blob:0"; Yielded ("blob:2", "") ["blob:1"; "blob:2"];
     Revoked "blob:1"; Yielded ("blob:3", "") ["blob:2"; "blob:3"];
     Revoked "blob:2"; Yielded ("blob:4", "") ["blob:3"; "blob:4"];
     Revoked "blob:3"; Yielded ("blob:5", "") ["blob:4"; "blob:5"];
     Revoked "blob:4"; Yielded ("blob:6", "") ["blob:5"; "blob:6"];
     Revoked "blob:5"; Yielded ("blob:7", "") ["blob:6"; "blob:7"]].
Proof. by vm_compute. Qed.

(** *** More facts about the generator *)

Section TraceFacts.

Context {W : Type} `{Platform W}.

Implicit Types (st : State (W:=W)) (evs : list Event)
  (castData : CastData) (haveEligibleFiles : bool).

(** What holds of every event a file gives rise to holds of every event
    of the generator. *)
Lemma forFiles_Forall (P : Event → Prop) castData :
  (∀ st haveEligibleFiles encryptedFile,
     Forall P (forBody castData st haveEligibleFiles encryptedFile).2) →
  ∀ encryptedFiles st haveEligibleFiles,
    Forall P (forFiles castData st haveEligibleFiles encryptedFiles).2.
Proof.
  intros Hbody files. induction files as [| f files IH]; intros st have;
    [by constructor |].
  cbn [forFiles]. specialize (Hbody st have f).
  destruct (forBody castData st have f) as [[[[e |] st1] have1] evs1];
    [done |].
  specialize (IH st1 have1).
  destruct (forFiles castData st1 have1 files) as [[[err st2] have2] evs2].
  by apply Forall_app.
Qed.

Lemma whileTrue_Forall (P : Event → Prop) castData :
  (∀ st haveEligibleFiles encryptedFile,
     Forall P (forBody castData st haveEligibleFiles encryptedFile).2) →
  ∀ pages cycles st, Forall P (whileTrue pages cycles castData st).2.
Proof.
  intros Hbody pages cycles.
  induction cycles as [| cycles IH]; intros st; [by constructor |].
  cbn [whileTrue].
  assert (Forall P (cycle pages castData st).2) as Hcycle.
  { unfold cycle.
    destruct (getEncryptedCollectionFiles pages (castToken castData)
                (world st)) as [[[[files | e] |] w] asked];
      [| by constructor..].
    destruct (shuffled w files) as [encryptedFiles w1].
    pose proof (forFiles_Forall P castData Hbody encryptedFiles
                  (with_world w1 st) false) as Hfor.
    destruct (forFiles castData (with_world w1 st) false encryptedFiles)
      as [[[[e |] st1] have1] evs1]; [done |]. by destruct have1. }
  destruct (cycle pages castData st) as [[[outcome |] st1] evs1]; [done |].
  specialize (IH st1).
  destruct (whileTrue pages cycles castData st1) as [[outcome st2] evs2].
  by apply Forall_app.
Qed.

(** X1: Every wait of the generator is shorter than a slide: the generator
    never sleeps for a whole [slideDuration], and never for nothing. *)
Theorem renderableImageURLs_waits_bounded (pages cycles : nat)
    (castData : CastData) (w : W) :
  Forall (fun ms => (0 < ms < slideDuration)%Z)
    (waits (renderableImageURLs pages cycles castData w).2).
Proof.
  assert (∀ evs,
            Forall (fun ev => match ev with
                              | Waited ms => (0 < ms < slideDuration)%Z
                              | _ => True
                              end) evs →
            Forall (fun ms => (0 < ms < slideDuration)%Z) (waits evs))
    as Hwaits.
  { induction 1 as [| [] evs Hev _ IH]; cbn; auto. }
  apply Hwaits, whileTrue_Forall. clear. intros st have f.
  destruct (forBody_cases castData st have f) as
    [(e & _ & ->) | [(file & _ & _ & ->) | [(file & e & w & _ & _ & _ & ->)
    | (file & w & url & rest & _ & _ & _ & _ & ->)]]]; cbn [snd];
    [by constructor | by constructor | by repeat constructor |].
  repeat apply Forall_app_2.
  - unfold revokeOldest.
    destruct (1 <? length (previousURLs st)), (previousURLs st);
      by repeat constructor.
  - unfold pace. destruct (_ && _) eqn:Hcond; cbn [snd]; [| constructor].
    apply andb_true_iff in Hcond as [Hpos%Z.ltb_lt Hlt%Z.ltb_lt].
    constructor; [lia | constructor].
  - by repeat constructor.
Qed.

End TraceFacts.

Section AccountFacts.

Context {W : Type} `{Platform W}.

Implicit Types (st : State (W:=W)) (evs hist : list Event)
  (castData : CastData) (haveEligibleFiles : bool).

(** What the body of the loop keeps of the state and the events so far,
    the generator keeps. *)
Lemma whileTrue_history (I : State (W:=W) → list Event → Prop) castData :
  (∀ st w hist, I st hist → I (with_world w st) hist) →
  (∀ st hist haveEligibleFiles encryptedFile,
     I st hist →
     I (forBody castData st haveEligibleFiles encryptedFile).1.1.2
       (hist ++ (forBody castData st haveEligibleFiles encryptedFile).2)) →
  ∀ pages cycles st hist,
    I st hist →
    I (whileTrue pages cycles castData st).1.2
      (hist ++ (whileTrue pages cycles castData st).2).
Proof.
  intros Hworld Hbody pages.
  assert (∀ files st hist have,
            I st hist →
            I (forFiles castData st have files).1.1.2
              (hist ++ (forFiles castData st have files).2)) as Hfor.
  { induction files as [| f files IH]; intros st hist have Hinv.
    { cbn. by rewrite app_nil_r. }
    cbn [forFiles]. specialize (Hbody st hist have f Hinv).
    destruct (forBody castData st have f) as [[[[e |] st1] have1] evs1];
      cbn [fst snd] in Hbody |- *; [done |].
    specialize (IH st1 _ have1 Hbody).
    destruct (forFiles castData st1 have1 files) as [[[err st2] have2] evs2].
    cbn [fst snd] in IH |- *. by rewrite app_assoc. }
  assert (∀ st hist,
            I st hist →
            I (cycle pages castData st).1.2
              (hist ++ (cycle pages castData st).2)) as Hcycle.
  { intros st hist Hinv. unfold cycle.
    destruct (getEncryptedCollectionFiles pages (castToken castData)
                (world st)) as [[[[files | e] |] w] asked]; cbn [fst snd];
      [| rewrite app_nil_r; by apply Hworld..].
    destruct (shuffled w files) as [encryptedFiles w1].
    specialize (Hfor encryptedFiles (with_world w1 st) hist false
                  (Hworld _ _ _ Hinv)).
    destruct (forFiles castData (with_world w1 st) false encryptedFiles)
      as [[[[e |] st1] have1] evs1]; cbn [fst snd] in Hfor |- *; [done |].
    by destruct have1. }
  induction cycles as [| cycles IH]; intros st hist Hinv.
  { cbn. by rewrite app_nil_r. }
  cbn [whileTrue]. specialize (Hcycle st hist Hinv).
  destruct (cycle pages castData st) as [[[outcome |] st1] evs1];
    cbn [fst snd] in Hcycle |- *; [done |].
  specialize (IH st1 _ Hcycle).
  destruct (whileTrue pages cycles castData st1) as [[outcome st2] evs2].
  cbn [fst snd] in IH |- *. by rewrite app_assoc.
Qed.

Lemma revokedList_app evs evs' :
  revokedList (evs ++ evs') = revokedList evs ++ revokedList evs'.
Proof. apply omap_app. Qed.

Lemma pace_revokedList (w : W) lastYieldTime :
  revokedList (pace w lastYieldTime).2 = [].
Proof. unfold pace. by destruct (_ && _). Qed.

Lemma shownAfter_app shown evs evs' :
  shownAfter shown (evs ++ evs') = shownAfter (shownAfter shown evs) evs'.
Proof.
  unfold shownAfter. rewrite yielded_app.
  destruct (yielded evs') as [| urlPair ys] using rev_ind.
  - by rewrite app_nil_r.
  - by rewrite app_assoc, !last_snoc.
Qed.

Lemma neverRevokesShown_app shown evs evs' :
  neverRevokesShown shown (evs ++ evs')
  ↔ neverRevokesShown shown evs
    ∧ neverRevokesShown (shownAfter shown evs) evs'.
Proof.
  revert shown.
  induction evs as [| [url | e | ms | urlPair retained] evs IH];
    intros shown; cbn [app neverRevokesShown].
  - unfold shownAfter. cbn. tauto.
  - rewrite IH. unfold shownAfter. cbn. tauto.
  - rewrite IH. by unfold shownAfter.
  - rewrite IH. by unfold shownAfter.
  - rewrite IH. unfold shownAfter. cbn.
    change (omap _ evs) with (yielded evs). rewrite last_cons.
    by destruct (last (yielded evs)).
Qed.

Lemma forBody_account castData st hist haveEligibleFiles encryptedFile :
  account st hist →
  account (forBody castData st haveEligibleFiles encryptedFile).1.1.2
    (hist ++ (forBody castData st haveEligibleFiles encryptedFile).2).
Proof.
  intros (Hnone & Hyielded & Hrevoked & Hqueue & Hshown).
  destruct (forBody_cases castData st haveEligibleFiles encryptedFile) as
    [(e & _ & ->) | [(file & _ & _ & ->) | [(file & e & w & _ & _ & _ & ->)
    | (file & w & url & rest & _ & _ & _ & Hurls & ->)]]]; cbn [fst snd].
  - by rewrite app_nil_r.
  - by rewrite app_nil_r.
  - unfold account.
    rewrite yielded_app, revokedList_app, neverRevokesShown_app, app_nil_r.
    cbn. by rewrite app_nil_r.
  - rewrite Hnone in Hurls. injection Hurls as <- <-.
    assert (shownAfter None hist
            = objectURL <$> last (seq 0 (issued st))) as Hlast.
    { unfold shownAfter. rewrite <- fmap_last, <- Hyielded, fmap_last.
      by destruct (last (yielded hist)). }
    unfold account. cbn [urls issued previousURLs].
    rewrite !yielded_app, !revokedList_app, !neverRevokesShown_app,
      revokeOldest_yielded, pace_yielded, pace_revokedList,
      fmap_app, Hyielded, Hrevoked, Hqueue, Hlast.
    cbn [yielded revokedList omap fmap list_fmap app fst].
    assert (∀ shown,
              neverRevokesShown shown (pace w (lastYieldTime st)).2) as Hpace.
    { intros shown. unfold pace. by destruct (_ && _). }
    destruct (issued st) as [| [| n]].
    + cbn. by split_and!.
    + cbn. by split_and!.
    + replace (S (S n) - 2) with n by lia.
      replace (S (S (S n)) - 2) with (S n) by lia.
      replace (S (S n) `min` 2) with 2 by lia.
      replace (S (S (S n)) `min` 2) with 2 by lia.
      rewrite !seq_S, !fmap_app, !last_snoc, <- !app_assoc. cbn.
      rewrite ?Nat.add_0_r, ?Nat.add_1_r. split_and!; try done.
      intros Heq. apply (inj Some), objectURL_inj in Heq. lia.
Qed.

Lemma renderableImageURLs_account pages cycles castData (w : W) :
  account (renderableImageURLs pages cycles castData w).1.2
    (renderableImageURLs pages cycles castData w).2.
Proof.
  unfold renderableImageURLs.
  apply (whileTrue_history account castData
           (fun st w hist Hacc => Hacc)
           (fun st hist have f => forBody_account castData st hist have f)
           pages cycles _ []).
  unfold account. cbn. by split_and!.
Qed.

(** X2: The URLs the generator yields are all different; at any end of a
    run all of them but the last two have been revoked, once each and in
    the order they were yielded, and the last two are the retention
    queue: no object URL is lost track of. *)
Theorem renderableImageURLs_accounts_for_urls (pages cycles : nat)
    (castData : CastData) (w : W) :
  let run := renderableImageURLs pages cycles castData w in
  let shown := (yielded run.2).*1 in
  NoDup shown
  ∧ revokedList run.2 = take (length shown - 2) shown
  ∧ previousURLs run.1.2 = drop (length shown - 2) shown.
Proof.
  intros run shown.
  destruct (renderableImageURLs_account pages cycles castData w)
    as (_ & Hyielded & Hrevoked & Hqueue & _).
  fold run in Hyielded, Hrevoked, Hqueue. fold shown in Hyielded.
  rewrite Hyielded, Hrevoked, Hqueue, length_fmap, length_seq.
  rewrite <- fmap_take, <- fmap_drop, take_seq, drop_seq. split_and!.
  - apply NoDup_fmap_2_strong; [| apply NoDup_seq].
    intros n m _ _. apply objectURL_inj.
  - f_equal. f_equal. lia.
  - f_equal. f_equal; lia.
Qed.

Lemma neverRevokesShown_lookup evs : ∀ shown,
  neverRevokesShown shown evs →
  ∀ j url,
    evs !! j = Some (Revoked url) →
    shownAfter shown (take j evs) ≠ Some url.
Proof.
  induction evs as [| ev evs IH]; intros shown Hsafe [| j] url Hj;
    try done; cbn in Hj.
  - injection Hj as ->. by destruct Hsafe.
  - cbn [take]. change (ev :: take j evs) with ([ev] ++ take j evs).
    rewrite shownAfter_app. apply IH; [| done].
    destruct ev as [url' | e | ms | urlPair retained]; cbn in Hsafe |- *;
      [by destruct Hsafe | done..].
Qed.

(** X3: The generator never revokes the URL it yielded last, which is the
    one on the screen: wherever the trace revokes a URL, the URL most
    recently yielded before that is another one. *)
Theorem renderableImageURLs_never_revokes_shown (pages cycles : nat)
    (castData : CastData) (w : W) :
  neverRevokesShown None (renderableImageURLs pages cycles castData w).2
  ∧ ∀ j url,
      (renderableImageURLs pages cycles castData w).2 !! j
      = Some (Revoked url) →
      shownAfter None
        (take j (renderableImageURLs pages cycles castData w).2)
      ≠ Some url.
Proof.
  assert (neverRevokesShown None
            (renderableImageURLs pages cycles castData w).2) as Hsafe
    by apply renderableImageURLs_account.
  split; [done |]. by apply neverRevokesShown_lookup.
Qed.

End AccountFacts.

(** *** The order of revocation and yield *)

Section RetentionFacts.

Context {W : Type} `{Platform W}.

Implicit Types (st : State (W:=W)) (evs hist : list Event)
  (castData : CastData) (haveEligibleFiles : bool).

(** [revokeOldest] leaves the queue as it is, or takes its first URL
    off and revokes it. *)
Lemma revokeOldest_shift (queue : list string) :
  revokeOldest queue = (queue, [])
  ∨ ∃ oldest rest,
      queue = oldest :: rest ∧ revokeOldest queue = (rest, [Revoked oldest]).
Proof.
  unfold revokeOldest. destruct (1 <? length queue); [| by left].
  destruct queue as [| oldest rest]; [by left | right; eauto].
Qed.

Lemma yielded_lookup evs j urlPair retained :
  evs !! j = Some (Yielded urlPair retained) → urlPair ∈ yielded evs.
Proof.
  intros Hj. apply elem_of_yielded. exists retained.
  by apply list_elem_of_lookup_2 in Hj.
Qed.

(** Events without a yield keep the order. *)
Lemma releasedBeforeYield_quiet hist evs :
  yielded evs = [] →
  releasedBeforeYield hist → releasedBeforeYield (hist ++ evs).
Proof.
  unfold releasedBeforeYield. intros Hquiet Hhist j urlPair retained url Hj.
  apply lookup_app_Some in Hj as [Hj | [_ Hj]].
  - rewrite take_app_le by (apply Nat.lt_le_incl; by eapply lookup_lt_Some).
    by apply (Hhist j urlPair retained url).
  - apply yielded_lookup in Hj. rewrite Hquiet in Hj. set_solver.
Qed.

(** A yield keeps the order when the URLs yielded before it are in its
    queue or revoked. *)
Lemma releasedBeforeYield_snoc hist urlPair retained :
  releasedBeforeYield hist →
  (∀ url, url ∈ (yielded hist).*1 →
          url ∈ retained ∨ url ∈ revokedList hist) →
  releasedBeforeYield (hist ++ [Yielded urlPair retained]).
Proof.
  unfold releasedBeforeYield. intros Hhist Hnow j urlPair' retained' url Hj.
  apply lookup_snoc_Some in Hj as [[Hlt Hj] | [-> [= <- <-]]].
  - rewrite take_app_le by lia. by apply (Hhist j urlPair' retained' url).
  - rewrite take_app_length. apply Hnow.
Qed.

(** The body of the loop keeps the order, and keeps every URL yielded
    so far in the queue or revoked. *)
Lemma forBody_releasedBeforeYield castData st hist haveEligibleFiles
    encryptedFile :
  releasedBeforeYield hist
  ∧ (∀ url, url ∈ (yielded hist).*1 →
            url ∈ previousURLs st ∨ url ∈ revokedList hist) →
  releasedBeforeYield
    (hist ++ (forBody castData st haveEligibleFiles encryptedFile).2)
  ∧ (∀ url,
       url ∈ (yielded
                (hist
                 ++ (forBody castData st haveEligibleFiles encryptedFile).2)).*1 →
       url ∈ previousURLs
               (forBody castData st haveEligibleFiles encryptedFile).1.1.2
       ∨ url ∈ revokedList
                 (hist
                  ++ (forBody castData st haveEligibleFiles encryptedFile).2)).
Proof.
  intros [Hhist Hqueue].
  destruct (forBody_cases castData st haveEligibleFiles encryptedFile) as
    [(e & _ & ->) | [(file & _ & _ & ->) | [(file & e & w & _ & _ & _ & ->)
    | (file & w & url & rest & _ & _ & _ & _ & ->)]]]; cbn [fst snd].
  - by rewrite app_nil_r.
  - by rewrite app_nil_r.
  - split; [by apply releasedBeforeYield_quiet |].
    rewrite yielded_app, revokedList_app, !app_nil_r. exact Hqueue.
  - cbn [previousURLs].
    set (queue := previousURLs st) in *.
    set (waited := (pace w (lastYieldTime st)).2).
    assert (yielded waited = []) as Hwaited by apply pace_yielded.
    assert (revokedList waited = []) as Hwaited' by apply pace_revokedList.
    assert (∀ url', url' ∈ queue →
              url' ∈ (revokeOldest queue).1 ++ [url]
              ∨ url' ∈ revokedList (revokeOldest queue).2) as Hshift.
    { intros url' Hin.
      destruct (revokeOldest_shift queue)
        as [-> | (oldest & rest' & Heq & ->)]; cbn [fst snd].
      - left. set_solver.
      - rewrite Heq in Hin. cbn. set_solver. }
    pose proof (revokeOldest_yielded queue) as Hrevoked.
    split.
    + rewrite !app_assoc. apply releasedBeforeYield_snoc.
      * rewrite <- app_assoc. apply releasedBeforeYield_quiet; [| done].
        by rewrite yielded_app, Hrevoked, Hwaited.
      * intros url'.
        rewrite !yielded_app, !revokedList_app, Hrevoked, Hwaited, Hwaited',
          !app_nil_r.
        intros [Hin | Hin]%Hqueue; [| set_solver].
        destruct (Hshift url' Hin); set_solver.
    + intros url'.
      rewrite !yielded_app, !revokedList_app, Hrevoked, Hwaited, Hwaited'.
      cbn [yielded revokedList omap app]. rewrite !app_nil_r, fmap_app.
      cbn [fmap list_fmap fst].
      intros [[Hin | Hin]%Hqueue | Hin]%elem_of_app.
      * destruct (Hshift url' Hin); set_solver.
      * set_solver.
      * set_solver.
Qed.

(** C7: at every yield the retention queue holds at most two URLs, and
    a URL revoked earlier is in none of the queues yielded later. When a
    file is rendered while the queue holds two URLs, the older one is
    revoked first, then comes the wait if there is one, and then the
    yield, with the newer one followed by the URL just created, which
    was never issued before, as queue. And in every run, every URL
    yielded before a yield is in the queue of that yield or was revoked
    at an earlier position of the trace: the revocation comes before the
    yield, not after it. *)
Theorem renderableImageURLs_bounded_retention (pages cycles : nat)
    (castData : CastData) (w : W) :
  (∀ i urlPair retained,
     (renderableImageURLs pages cycles castData w).2 !! i
     = Some (Yielded urlPair retained) →
     length retained ≤ 2)
  ∧ (∀ i j url urlPair retained,
       i < j →
       (renderableImageURLs pages cycles castData w).2 !! i
       = Some (Revoked url) →
       (renderableImageURLs pages cycles castData w).2 !! j
       = Some (Yielded urlPair retained) →
       url ∉ retained)
  ∧ (∀ st haveEligibleFiles encryptedFile older newer urlPair retained,
       previousURLs st = [older; newer] →
       urls st = [] →
       Yielded urlPair retained
       ∈ (forBody castData st haveEligibleFiles encryptedFile).2 →
       urlPair.1 = objectURL (issued st)
       ∧ retained = [newer; urlPair.1]
       ∧ ∃ waited : list Z,
           (forBody castData st haveEligibleFiles encryptedFile).2
           = Revoked older :: (Waited <$> waited)
             ++ [Yielded urlPair retained])
  ∧ (∀ j urlPair retained url,
       (renderableImageURLs pages cycles castData w).2 !! j
       = Some (Yielded urlPair retained) →
       url ∈ (yielded
                (take j (renderableImageURLs pages cycles castData w).2)).*1 →
       url ∈ retained
       ∨ url ∈ revokedList
                 (take j (renderableImageURLs pages cycles castData w).2)).
Proof.
  assert (retention ∅ (renderableImageURLs pages cycles castData w).2)
    as Hret.
  { apply whileTrue_retains. unfold retains. cbn.
    split_and!; [done | lia | constructor | set_solver | set_solver]. }
  destruct (retention_lookup _ _ Hret) as [Hyield Hrevoke].
  split_and!.
  - intros i urlPair retained Hi. by apply (Hyield i urlPair retained).
  - exact Hrevoke.
  - intros st have f older newer urlPair retained Hqueue Hnone.
    destruct (forBody_cases castData st have f) as
      [(e & _ & ->) | [(file & _ & _ & ->) | [(file & e & w' & _ & _ & _ & ->)
      | (file & w' & url & rest & _ & _ & _ & Hurls & ->)]]];
      cbn [snd]; [set_solver.. |].
    rewrite Hnone in Hurls. injection Hurls as <- <-.
    rewrite Hqueue. cbn [revokeOldest length Nat.ltb Nat.leb fst snd app].
    unfold pace. destruct (_ && _); cbn [snd app]; intros Hin.
    + assert (Yielded urlPair retained
              = Yielded (objectURL (issued st), "")
                  [newer; objectURL (issued st)]) as [= -> ->]
        by set_solver.
      split_and!; [done | done |].
      by exists [(slideDuration - (Date_now w' - lastYieldTime st))%Z].
    + assert (Yielded urlPair retained
              = Yielded (objectURL (issued st), "")
                  [newer; objectURL (issued st)]) as [= -> ->]
        by set_solver.
      split_and!; [done | done |]. by exists [].
  - unfold renderableImageURLs.
    pose proof (whileTrue_history
                  (fun st hist =>
                     releasedBeforeYield hist
                     ∧ ∀ url, url ∈ (yielded hist).*1 →
                              url ∈ previousURLs st ∨ url ∈ revokedList hist)
                  castData
                  (fun st w hist Hinv => Hinv)
                  (fun st hist have f =>
                     forBody_releasedBeforeYield castData st hist have f)
                  pages cycles
                  {| world := w; issued := 0; previousURLs := []; urls := [];
                     lastYieldTime :=
                       (Date_now w - (slideDuration - 2500))%Z |} [])
      as Hrun.
    destruct Hrun as [Hordered _]; [| exact Hordered].
    split; [| set_solver]. intros j urlPair retained url Hj. done.
Qed.

End RetentionFacts.

(** *** Pacing *)

Section PacingFacts.

Context {W : Type} `{Platform W}.



End PacingFacts.



(** *** Collections that cannot be shown *)

Section UnrenderableFacts.

Context {W : Type} `{Platform W}.

Implicit Types (st : State (W:=W)) (castData : CastData).

Lemma forFiles_notShowable (Q : W → Prop) castData encryptedFiles :
  Forall (notShowable Q castData) encryptedFiles →
  ∀ st haveEligibleFiles,
    Q (world st) →
    (forFiles castData st haveEligibleFiles encryptedFiles).1.1.1 = None
    ∧ (forFiles castData st haveEligibleFiles encryptedFiles).1.2
      = haveEligibleFiles
    ∧ yielded (forFiles castData st haveEligibleFiles encryptedFiles).2 = [].
Proof.
  induction 1 as [| f files (file & Hdec & Hnot) _ IH]; intros st have HQ;
    [done |].
  cbn [forFiles].
  assert (∃ st1 evs1,
            forBody castData st have f = (None, st1, have, evs1)
            ∧ yielded evs1 = [] ∧ Q (world st1))
    as (st1 & evs1 & -> & Hnone & HQ1).
  { destruct (forBody_cases castData st have f) as
      [(e & Hdec' & _) | [(file' & _ & _ & ->)
      | [(file' & e & w & Hdec' & Heligible & Hcreate & ->)
      | (file' & w & url & rest & Hdec' & Heligible & Hcreate & _)]]];
      [congruence | by eauto | |];
      rewrite Hdec in Hdec'; injection Hdec' as <-;
      (destruct Hnot as [Hne | Hfails]; [congruence |]);
      destruct (Hfails st HQ) as [Hfail HQ1].
    - rewrite Hcreate in HQ1. by eauto.
    - by rewrite Hcreate in Hfail. }
  destruct (IH st1 have HQ1) as (Herr & Hhave & Hyielded).
  destruct (forFiles castData st1 have files) as [[[err st2] have2] evs2].
  cbn [fst snd] in *. subst. by rewrite yielded_app, Hnone, Hyielded.
Qed.

(** X6: When the listing is fetched and every record of it decrypts but
    none can be shown, because it is not eligible or because its content
    cannot be fetched, decrypted or decoded in the worlds [Q] the pass
    goes through, the generator returns at the end of that pass without
    having yielded: files that are eligible but cannot be rendered do not
    keep the slideshow going. *)
Theorem renderableImageURLs_ends_when_nothing_renders (Q : W → Prop)
    (pages : nat) (castData : CastData) (st : State (W:=W))
    (files : list Enc.File) (w1 : W) (asked : list Z) (cycles : nat) :
  getEncryptedCollectionFiles pages (castToken castData) (world st)
  = (Some (Ok files), w1, asked) →
  Q (shuffled w1 files).2 →
  Forall (notShowable Q castData) files →
  (whileTrue pages (S cycles) castData st).1.1 = Done
  ∧ yielded (whileTrue pages (S cycles) castData st).2 = [].
Proof.
  intros Hfetch HQ Hall. cbn [whileTrue]. unfold cycle. rewrite Hfetch.
  pose proof (shuffled_permutation w1 files) as Hperm.
  destruct (shuffled w1 files) as [encryptedFiles w2]. cbn [fst snd] in *.
  rewrite <- Hperm in Hall.
  destruct (forFiles_notShowable Q castData encryptedFiles Hall
              (with_world w2 st) false HQ) as (Herr & Hhave & Hyielded).
  destruct (forFiles castData (with_world w2 st) false encryptedFiles)
    as [[[err st2] have2] evs2]. cbn [fst snd] in *. by subst.
Qed.

End UnrenderableFacts.

(** On the scripted platform the URL of a file whose content is missing
    on the server cannot be created, and the attempt leaves the server as
    it is. *)
Lemma scripted_missing_fails (castToken : string) (file : EnteFile)
    (st : State (W:=Server)) :
  isImageOrLivePhoto file = true →
  id file ∈ missing (world st) →
  (createRenderableURL castToken file st).1
  = Throw "Request failed with status code 404"
  ∧ world (createRenderableURL castToken file st).2 = world st.
Proof.
  intros Himage Hmissing.
  unfold createRenderableURL, renderableImageBlob, downloadFile.
  rewrite Himage. cbn [negb].
  change (HTTPService_get_file (world st) (getCastFileURL (id file)) castToken)
    with (scripted_get_file (world st) (scripted_getCastFileURL (id file))
            castToken).
  unfold scripted_get_file. rewrite bool_decide_eq_true_2; [done |].
  apply list_elem_of_fmap. by exists (id file).
Qed.

(** On the scripted platform, with the content of both images missing
    on the server: two files skipped, nothing yielded, and the generator
    is done. *)
Lemma renderableImageURLs_ends_when_nothing_renders_witness :
  (whileTrue 5 3 castData0
     (started {| records := [file_a; file_b]; missing := [1; 2]%Z;
                 time := 0 |})).1.1 = Done
  ∧ yielded (whileTrue 5 3 castData0
               (started {| records := [file_a; file_b];
                           missing := [1; 2]%Z; time := 0 |})).2 = [].
Proof.
  assert (getEncryptedCollectionFiles 5 (castToken castData0)
            (world (started {| records := [file_a; file_b];
                               missing := [1; 2]%Z; time := 0 |}))
          = (Some (Ok [file_a; file_b]),
             {| records := [file_a; file_b]; missing := [1; 2]%Z;
                time := 0 |}, [0%Z])) as Hfetch by reflexivity.
  apply (renderableImageURLs_ends_when_nothing_renders
           (fun w => missing w = [1; 2]%Z) _ _ _ _ _ _ 2 Hfetch);
    [reflexivity |].
  apply Forall_cons_2; [| apply Forall_cons_2; [| apply Forall_nil_2]].
  - exists (decrypted file_a). split; [reflexivity |]. right. intros st HQ.
    destruct (scripted_missing_fails (castToken castData0) (decrypted file_a)
                st eq_refl) as [-> ->]; [| done].
    rewrite HQ. set_solver.
  - exists (decrypted file_b). split; [reflexivity |]. right. intros st HQ.
    destruct (scripted_missing_fails (castToken castData0) (decrypted file_b)
                st eq_refl) as [-> ->]; [| done].
    rewrite HQ. set_solver.
Defined.

(** *** More facts about the listing *)

Section MoreListingFacts.

Context {W : Type} `{Platform W}.

Lemma getEncryptedCollectionFiles_loop_any fuel castToken : ∀ files sinceTime w,
  let r := getEncryptedCollectionFiles_loop fuel castToken files sinceTime w in
  (∀ listing,
     r.1.1 = Some (Ok listing) →
     ∃ fetched,
       listing = files ++ fetched
       ∧ Forall (fun file => Enc.isDeleted file = false) fetched)
  ∧ Sorted Z.le r.2
  ∧ Forall (fun asked => (sinceTime ≤ asked)%Z) r.2
  ∧ length r.2 ≤ fuel
  ∧ (0 < fuel → head r.2 = Some sinceTime).
Proof.
  induction fuel as [| fuel IH]; intros files sinceTime w; cbn zeta.
  { cbn. split_and!; [done | constructor | constructor | lia | lia]. }
  cbn [getEncryptedCollectionFiles_loop].
  destruct (HTTPService_get_diff w sinceTime castToken) as [[resp | e] w1].
  2: { cbn. split_and!; [done | by repeat constructor | | lia | done].
       constructor; [lia | constructor]. }
  assert (Forall (fun file => Enc.isDeleted file = false)
            (notDeleted (diff resp))) as Hlive.
  { unfold notDeleted. apply Forall_forall. intros file Hin.
    apply list_elem_of_In, filter_In in Hin as [_ Hlive].
    by apply negb_true_iff in Hlive. }
  destruct (hasMore resp).
  2: { cbn. split_and!; [| by repeat constructor | | lia | done].
       - intros listing [= <-]. eauto.
       - constructor; [lia | constructor]. }
  specialize (IH (files ++ notDeleted (diff resp))
                (advance sinceTime (diff resp)) w1). cbn zeta in IH.
  destruct (getEncryptedCollectionFiles_loop fuel castToken _ _ w1)
    as [[r w2] asked]. cbn [fst snd] in IH |- *.
  destruct IH as (Hlisting & Hsorted & Hlower & Hlen & Hhead).
  destruct (advance_ge sinceTime (diff resp)) as [Hadvance _].
  split_and!; [| | | cbn; lia | done].
  - intros listing Hr. destruct (Hlisting listing Hr) as (fetched & -> & Hall).
    exists (notDeleted (diff resp) ++ fetched).
    split; [by rewrite app_assoc | by apply Forall_app].
  - constructor; [done |].
    destruct Hlower as [| first asked Hfirst _]; constructor. lia.
  - constructor; [lia |]. eapply Forall_impl; [exact Hlower |].
    cbn. intros. lia.
Qed.

(** X7: Whatever the server answers: a listing that is returned holds no
    deleted record; the requests are made with watermarks that start at 0
    and never go back; and at most [fuel] requests are made. *)
Theorem getEncryptedCollectionFiles_never_deleted (fuel : nat)
    (castToken : string) (w : W) :
  let r := getEncryptedCollectionFiles fuel castToken w in
  (∀ listing,
     r.1.1 = Some (Ok listing) →
     Forall (fun file => Enc.isDeleted file = false) listing)
  ∧ Sorted Z.le r.2
  ∧ (0 < fuel → head r.2 = Some 0%Z)
  ∧ length r.2 ≤ fuel.
Proof.
  intros r. subst r. unfold getEncryptedCollectionFiles.
  destruct (getEncryptedCollectionFiles_loop_any fuel castToken [] 0 w)
    as (Hlisting & Hsorted & _ & Hlen & Hhead).
  split_and!; [| done..].
  intros listing Hr. by destruct (Hlisting listing Hr) as (fetched & -> & Hall).
Qed.

End MoreListingFacts.

(** *** Facts about decryption and rendering of one file *)

Section FileFacts.

Context {W : Type} `{Platform W}.

Lemma decryptMagic_noMagic {D} (decrypt : string → string → string → result D)
    magicMetadata fileKey :
  noMagic magicMetadata → decryptMagic decrypt magicMetadata fileKey = Ok None.
Proof. destruct magicMetadata as [[h d] |]; [| done]. by intros [= ->]. Qed.

Lemma decryptMagic_ok {D} (decrypt : string → string → string → result D)
    magicMetadata fileKey decrypted :
  decryptMagic decrypt magicMetadata fileKey = Ok (Some decrypted) →
  ∃ mm, magicMetadata = Some mm ∧ data mm ≠ ""
        ∧ header decrypted = header mm
        ∧ decrypt (data mm) (header mm) fileKey = Ok (data decrypted).
Proof.
  unfold decryptMagic, mbind, mret, result_bind, result_ret.
  destruct magicMetadata as [mm |]; [| done]. cbn.
  destruct (String.eqb (data mm) "") eqn:Hdata; cbn; [done |].
  apply String.eqb_neq in Hdata.
  destruct (decrypt _ _ _) as [d | e] eqn:Hdecrypt; [| done].
  intros [= <-]. by exists mm.
Qed.

(** X8: A record that decrypts: the key of the file is the record's key
    decrypted with the collection key, and the metadata and the public
    magic metadata are decrypted with the key of the file; the file type
    is the one of the metadata; the title is the edited name when the
    public magic metadata holds a non-empty one, else the title of the
    metadata; the creation time is the edited time when there is one
    other than 0, else the one of the metadata; and the other fields are
    those of the record. *)
Theorem decryptEnteFile_overrides (encryptedFile : Enc.File)
    (collectionKey : string) (file : EnteFile) :
  decryptEnteFile encryptedFile collectionKey = Ok file →
  decryptB64 (Enc.encryptedKey encryptedFile)
    (Enc.keyDecryptionNonce encryptedFile) collectionKey = Ok (key file)
  ∧ (∃ fileMetadata,
       decryptMetadata (encryptedData (Enc.metadata encryptedFile))
         (decryptionHeader (Enc.metadata encryptedFile)) (key file)
       = Ok fileMetadata
       ∧ fileType (metadata file) = fileType fileMetadata
       ∧ title (metadata file)
         = match pubMagicMetadata file with
           | Some pub =>
               match editedName (data pub) with
               | Some name => if String.eqb name "" then title fileMetadata
                              else name
               | None => title fileMetadata
               end
           | None => title fileMetadata
           end
       ∧ creationTime (metadata file)
         = match pubMagicMetadata file with
           | Some pub =>
               match editedTime (data pub) with
               | Some time => if (time =? 0)%Z then creationTime fileMetadata
                              else time
               | None => creationTime fileMetadata
               end
           | None => creationTime fileMetadata
           end)
  ∧ (∀ pub, pubMagicMetadata file = Some pub →
       ∃ mm, Enc.pubMagicMetadata encryptedFile = Some mm ∧ data mm ≠ ""
             ∧ decryptMetadata_pub (data mm) (header mm) (key file)
               = Ok (data pub))
  ∧ id file = Enc.id encryptedFile
  ∧ info file = Enc.info encryptedFile
  ∧ Render.file file = Enc.file encryptedFile
  ∧ isDeleted file = Enc.isDeleted encryptedFile
  ∧ updationTime file = Enc.updationTime encryptedFile.
Proof.
  unfold decryptEnteFile, mbind, mret, result_bind, result_ret.
  destruct (decryptB64 _ _ _) as [fileKey |]; [| done].
  destruct (decryptMetadata _ _ _) as [fileMetadata |] eqn:Hmetadata;
    [| done].
  destruct (decryptMagic decryptMetadata_magic _ _) as [magic |]; [| done].
  destruct (decryptMagic decryptMetadata_pub _ _) as [pub |] eqn:Hpub;
    [| done].
  intros [= <-]. cbn. split_and!; try done.
  - exists fileMetadata. split_and!; [done | done | |].
    + destruct pub as [[h [time [name |]]] |]; cbn; [| done..].
      by destruct (String.eqb name "").
    + destruct pub as [[h [[time |] name]] |]; cbn; [| done..].
      by destruct (time =? 0)%Z.
  - intros pub' ->.
    destruct (decryptMagic_ok _ _ _ _ Hpub) as (mm & ? & ? & _ & ?).
    by exists mm.
Qed.

(** X9: Where the decryption of a record fails: on the key, with its error
    and whatever the rest is; on the metadata, with its error. A magic
    metadata blob that is absent or has no data is not decrypted: with
    neither, a record whose key and metadata decrypt always decrypts, to
    a file without magic metadata whose metadata are the decrypted ones
    as they are. *)
Theorem decryptEnteFile_errors (encryptedFile : Enc.File)
    (collectionKey : string) :
  (∀ e,
     decryptB64 (Enc.encryptedKey encryptedFile)
       (Enc.keyDecryptionNonce encryptedFile) collectionKey = Throw e →
     decryptEnteFile encryptedFile collectionKey = Throw e)
  ∧ (∀ fileKey e,
       decryptB64 (Enc.encryptedKey encryptedFile)
         (Enc.keyDecryptionNonce encryptedFile) collectionKey = Ok fileKey →
       decryptMetadata (encryptedData (Enc.metadata encryptedFile))
         (decryptionHeader (Enc.metadata encryptedFile)) fileKey = Throw e →
       decryptEnteFile encryptedFile collectionKey = Throw e)
  ∧ (∀ fileKey fileMetadata,
       decryptB64 (Enc.encryptedKey encryptedFile)
         (Enc.keyDecryptionNonce encryptedFile) collectionKey = Ok fileKey →
       decryptMetadata (encryptedData (Enc.metadata encryptedFile))
         (decryptionHeader (Enc.metadata encryptedFile)) fileKey
       = Ok fileMetadata →
       noMagic (Enc.magicMetadata encryptedFile) →
       noMagic (Enc.pubMagicMetadata encryptedFile) →
       ∃ file,
         decryptEnteFile encryptedFile collectionKey = Ok file
         ∧ key file = fileKey
         ∧ metadata file = fileMetadata
         ∧ magicMetadata file = None
         ∧ pubMagicMetadata file = None).
Proof.
  unfold decryptEnteFile, mbind, mret, result_bind, result_ret. split_and!.
  - by intros e ->.
  - by intros fileKey e -> ->.
  - intros fileKey fileMetadata -> -> Hmagic Hpub.
    rewrite !decryptMagic_noMagic by done. cbn. eexists. split; [done |].
    by destruct fileMetadata.
Qed.

(** X10: A blob that is rendered: the file is an image or a live photo; its
    content was fetched from the URL of the file and decrypted with the
    key of the file; the bytes of the blob are that content, or for a
    live photo the image decoded from it; and the type of the blob is the
    MIME type detected from those bytes, which is not empty. *)
Theorem renderableImageBlob_ok (castToken : string) (file : EnteFile)
    (w w' : W) (blob : Blob) :
  renderableImageBlob castToken file w = (Ok blob, w') →
  isImageOrLivePhoto file = true
  ∧ type blob ≠ ""
  ∧ detectMediaMIMEType (title (metadata file)) (bytes blob)
    = Ok (Some (type blob))
  ∧ ∃ encrypted content,
      HTTPService_get_file w (getCastFileURL (id file)) castToken
      = (Ok (Some encrypted), w')
      ∧ (fileHeader ← fromB64 (decryptionHeader (Render.file file));
         decryptFile encrypted fileHeader (key file)) = Ok content
      ∧ if bool_decide (fileType (metadata file) = LIVE_PHOTO)
        then decodeLivePhoto (title (metadata file)) content
             = Ok (bytes blob)
        else bytes blob = content.
Proof.
  unfold renderableImageBlob, downloadFile.
  destruct (isImageOrLivePhoto file); cbn [negb]; [| done].
  destruct (HTTPService_get_file _ _ _) as [[[encrypted |] | e] w1];
    cbn; try done.
  unfold mbind, mret, result_bind, result_ret.
  destruct (fromB64 _) as [fileHeader |] eqn:Hheader; [| done].
  destruct (decryptFile _ _ _) as [content |] eqn:Hcontent; [| done].
  destruct (bool_decide (fileType (metadata file) = LIVE_PHOTO)) eqn:Hlive.
  - destruct (decodeLivePhoto _ _) as [image |] eqn:Hdecode; [| done].
    destruct (detectMediaMIMEType _ _) as [[mimeType |] |] eqn:Hmime;
      try done. cbn.
    destruct (String.eqb mimeType "") eqn:Hempty; cbn; [done |].
    intros [= <- <-]. apply String.eqb_neq in Hempty. cbn.
    split_and!; [done | done | done |]. by exists encrypted, content.
  - destruct (detectMediaMIMEType _ _) as [[mimeType |] |] eqn:Hmime;
      try done. cbn.
    destruct (String.eqb mimeType "") eqn:Hempty; cbn; [done |].
    intros [= <- <-]. apply String.eqb_neq in Hempty. cbn.
    split_and!; [done | done | done |]. by exists encrypted, content.
Qed.

End FileFacts.

(** On the scripted platform: the renamed record decrypts to a file
    titled by its new name. *)
Lemma decryptEnteFile_overrides_witness :
  title (metadata (decrypted renamed)) = "new.jpg"
  ∧ id (decrypted renamed) = 9%Z.
Proof.
  assert (decryptEnteFile renamed "collection-key" = Ok (decrypted renamed))
    as Hdecrypts by reflexivity.
  destruct (decryptEnteFile_overrides renamed "collection-key"
              (decrypted renamed) Hdecrypts)
    as (_ & (fileMetadata & _ & _ & Htitle & _) & _ & Hid & _).
  by rewrite Htitle, Hid.
Defined.

(** On the scripted platform: the blob of the live photo [b]. *)
Lemma renderableImageBlob_ok_witness :
  isImageOrLivePhoto (decrypted file_b) = true
  ∧ type {| bytes := [255; 216; 255]%Z; type := "image/jpeg" |} ≠ "".
Proof.
  assert (renderableImageBlob "token" (decrypted file_b) (server [])
          = (Ok {| bytes := [255; 216; 255]%Z; type := "image/jpeg" |},
             server [])) as Hblob by reflexivity.
  destruct (renderableImageBlob_ok "token" (decrypted file_b) (server [])
              (server [])
              {| bytes := [255; 216; 255]%Z; type := "image/jpeg" |} Hblob)
    as (Himage & Htype & _).
  by split.
Defined.

(** *** More facts about the local store *)

Section MoreStoreFacts.

Variable Number_toString : Z → string.

Abbreviation js_toString := (js_toString Number_toString).
Abbreviation setItems := (setItems Number_toString).
Abbreviation storeCastData := (storeCastData Number_toString).

Implicit Types (props : list (string * JsValue)) (ls : gmap string string).

(** The store after the writes: the payload's entries, the last one of
    each key, over what was there. *)
Lemma setItems_union props ls :
  setItems props ls
  = list_to_map
      (reverse ((fun kv => (kv.1, js_toString kv.2)) <$> props)) ∪ ls.
Proof.
  induction props as [| [k v] props IH] using rev_ind.
  - cbn. by rewrite (left_id_L ∅ (∪)).
  - rewrite setItems_snoc, IH, fmap_app, reverse_app. cbn.
    by rewrite insert_union_l.
Qed.

(** X11: Storing a payload and reading the store back gives the payload's
    [collectionKey] and [castToken] as strings, whatever the store held
    before and whatever else the payload holds: a pairing replaces the
    credentials of the one before. A value that is not a string is read
    back as the string it was stored as. *)
Theorem storeCastData_then_readCastData props ls (key token : JsValue) :
  NoDup props.*1 →
  ("collectionKey", key) ∈ props →
  ("castToken", token) ∈ props →
  ∃ ls',
    storeCastData (JObj props) ls = Ok ls'
    ∧ readCastData ls'
      = Ok {| collectionKey := js_toString key;
              castToken := js_toString token |}.
Proof.
  intros Hnodup Hkey Htoken. exists (setItems props ls). split; [done |].
  unfold readCastData.
  by rewrite (setItems_lookup Number_toString props ls "collectionKey" key
                Hnodup Hkey),
    (setItems_lookup Number_toString props ls "castToken" token Hnodup
       Htoken).
Qed.

(** X12: Storing the same payload again changes nothing. *)
Theorem storeCastData_idempotent (payload : JsValue) ls ls' :
  storeCastData payload ls = Ok ls' → storeCastData payload ls' = Ok ls'.
Proof.
  intros (props & -> & ->)%storeCastData_object.
  unfold storeCastData. cbn. f_equal.
  by rewrite !setItems_union, (assoc_L (∪)), (idemp_L (∪)).
Qed.

End MoreStoreFacts.

(** A payload as a sender makes it, over the credentials of an earlier
    pairing. *)
Lemma storeCastData_then_readCastData_witness :
  ∃ ls',
    storeCastData decimal
      (JObj [("collectionID", JNum 42); ("collectionKey", JStr "key");
             ("castToken", JStr "token")])
      {[ "collectionKey" := "old key"; "castToken" := "old token" ]}
    = Ok ls'
    ∧ readCastData ls' = Ok {| collectionKey := "key"; castToken := "token" |}.
Proof.
  apply (storeCastData_then_readCastData decimal
           [("collectionID", JNum 42); ("collectionKey", JStr "key");
            ("castToken", JStr "token")]
           {[ "collectionKey" := "old key"; "castToken" := "old token" ]}
           (JStr "key") (JStr "token")).
  - apply (bool_decide_unpack _). by vm_compute.
  - set_solver.
  - set_solver.
Defined.

Lemma storeCastData_idempotent_witness :
  storeCastData decimal
    (JObj [("collectionID", JNum 42); ("collectionKey", JStr "key");
           ("castToken", JStr "token")])
    {[ "collectionID" := "42"; "collectionKey" := "key";
       "castToken" := "token" ]}
  = Ok {[ "collectionID" := "42"; "collectionKey" := "key";
          "castToken" := "token" ]}.
Proof.
  apply (storeCastData_idempotent decimal
           (JObj [("collectionID", JNum 42); ("collectionKey", JStr "key");
                  ("castToken", JStr "token")]) ∅).
  by vm_compute.
Defined.

End RenderFacts.

(** ** Facts about the machine learning factory *)

Module MLFacts.

Import ML.

Section ContextFacts.

Context {File Face : Type}.

(** X16: A context is made exactly for the one configuration the factory
    knows: BlazeFace detection, ArcFace crop and alignment, MobileFaceNet
    embedding and Hdbscan clustering. It then holds the five services of
    these methods, in their places, and no files or faces yet; and
    [shouldUpdateMLVersion] is true unless false is passed. With any
    other configuration the constructor throws. *)
Theorem new_LocalMLSyncContext_known (token : string) (config : MLSyncConfig)
    (shouldUpdateMLVersion : option bool) :
  (is_ok (new_LocalMLSyncContext (File:=File) (Face:=Face) token config
            shouldUpdateMLVersion) = true
   ↔ config = knownConfig)
  ∧ ∀ context,
      new_LocalMLSyncContext (File:=File) (Face:=Face) token config
        shouldUpdateMLVersion = Ok context →
      ML.token context = token
      ∧ ML.config context = config
      ∧ ML.shouldUpdateMLVersion context
        = match shouldUpdateMLVersion with Some false => false | _ => true end
      ∧ faceDetectionService context = blazeFaceDetectionService
      ∧ faceCropService context = arcfaceCropService
      ∧ faceAlignmentService context = arcfaceAlignmentService
      ∧ faceEmbeddingService context = mobileFaceNetEmbeddingService
      ∧ faceClusteringService context = hdbscanClusteringService
      ∧ outOfSyncFiles context = []
      ∧ syncedFiles context = []
      ∧ syncedFaces context = []
      ∧ dispose context
        = [blazeFaceDetectionService; mobileFaceNetEmbeddingService].
Proof.
  unfold new_LocalMLSyncContext, getFaceDetectionService, getFaceCropService,
    getFaceAlignmentService, getFaceEmbeddingService, getClusteringService,
    mbind, mret, result_bind, result_ret.
  destruct config as [detection crop alignment embedding clustering]. cbn.
  destruct (String.eqb_spec detection "BlazeFace") as [-> | Hd].
  2: { split; [| done]. split; [done |]. intros [= ?]. done. }
  destruct (String.eqb_spec crop "ArcFace") as [-> | Hc].
  2: { split; [| done]. split; [done |]. intros [= ?]. done. }
  destruct (String.eqb_spec alignment "ArcFace") as [-> | Ha].
  2: { split; [| done]. split; [done |]. intros [= ?]. done. }
  destruct (String.eqb_spec embedding "MobileFaceNet") as [-> | He].
  2: { split; [| done]. split; [done |]. intros [= ?]. done. }
  destruct (String.eqb_spec clustering "Hdbscan") as [-> | Hk].
  2: { split; [| done]. split; [done |]. intros [= ?]. done. }
  split; [done |]. intros context [= <-]. cbn.
  split_and!; try done. by destruct shouldUpdateMLVersion as [[] |].
Qed.

(** X17: The constructor asks for the services in the order detection, crop,
    alignment, embedding, clustering, and throws for the first method
    it does not know, naming it. *)
Theorem new_LocalMLSyncContext_unknown (token : string)
    (config : MLSyncConfig) (shouldUpdateMLVersion : option bool) :
  config ≠ knownConfig →
  ∃ e,
    new_LocalMLSyncContext (File:=File) (Face:=Face) token config
      shouldUpdateMLVersion = Throw e
    ∧ e = (if negb (String.eqb (faceDetection config) "BlazeFace")
           then "Unknon face detection method: " +:+ faceDetection config
           else if negb (String.eqb (faceCrop config) "ArcFace")
           then "Unknon face crop method: " +:+ faceCrop config
           else if negb (String.eqb (faceAlignment config) "ArcFace")
           then "Unknon face alignment method: " +:+ faceAlignment config
           else if negb (String.eqb (faceEmbedding config) "MobileFaceNet")
           then "Unknon face embedding method: " +:+ faceEmbedding config
           else "Unknon clustering method: " +:+ faceClustering config).
Proof.
  unfold new_LocalMLSyncContext, getFaceDetectionService, getFaceCropService,
    getFaceAlignmentService, getFaceEmbeddingService, getClusteringService,
    mbind, mret, result_bind, result_ret.
  destruct config as [detection crop alignment embedding clustering]. cbn.
  intros Hunknown.
  destruct (String.eqb_spec detection "BlazeFace") as [-> | Hd]; cbn;
    [| by eexists].
  destruct (String.eqb_spec crop "ArcFace") as [-> | Hc]; cbn;
    [| by eexists].
  destruct (String.eqb_spec alignment "ArcFace") as [-> | Ha]; cbn;
    [| by eexists].
  destruct (String.eqb_spec embedding "MobileFaceNet") as [-> | He]; cbn;
    [| by eexists].
  destruct (String.eqb_spec clustering "Hdbscan") as [-> | Hk]; cbn;
    [done | by eexists].
Qed.

End ContextFacts.

(** A configuration with an unknown cropping method and an unknown
    clustering method: the cropping method is the one named. *)
Lemma new_LocalMLSyncContext_unknown_witness :
  ∃ e,
    new_LocalMLSyncContext (File:=unit) (Face:=unit) "token"
      {| faceDetection := "BlazeFace"; faceCrop := "Square";
         faceAlignment := "ArcFace"; faceEmbedding := "MobileFaceNet";
         faceClustering := "Dbscan" |} None = Throw e
    ∧ e = "Unknon face crop method: Square".
Proof.
  apply (new_LocalMLSyncContext_unknown (File:=unit) (Face:=unit) "token"
           {| faceDetection := "BlazeFace"; faceCrop := "Square";
              faceAlignment := "ArcFace"; faceEmbedding := "MobileFaceNet";
              faceClustering := "Dbscan" |} None).
  discriminate.
Defined.

End MLFacts.

(** ** Facts about one-time password codes *)

Module AuthFacts.

Import Auth.

Lemma escapeHash_no_hash (s : string) :
  containsChar "#" (escapeHash s) = false.
Proof.
  induction s as [|c s IH]; [done|].
  cbn [escapeHash]. destruct (Ascii.eqb c "#") eqn:Hc.
  - cbn. exact IH.
  - cbn [containsChar]. rewrite Hc. exact IH.
Qed.

Section FromRawDataFacts.

Variable Uri_parse : string → result Uri.
Variable Uri_decodeComponent : string → result string.
Variable int_parse : string → result Z.
Variable getSanitizedSecret : string → string.

Abbreviation fromRawData :=
  (fromRawData Uri_parse Uri_decodeComponent int_parse getSanitizedSecret).
Abbreviation parsed :=
  (parsed Uri_decodeComponent int_parse getSanitizedSecret).
Abbreviation _getIssuer := (_getIssuer Uri_decodeComponent).
Abbreviation _getAccount := (_getAccount Uri_decodeComponent).
Abbreviation _getDigits := (_getDigits int_parse).
Abbreviation _getPeriod := (_getPeriod int_parse).
Abbreviation _getCounter := (_getCounter int_parse).

(** Without a [#] in the text there is one attempt. *)
Lemma fromRawData_no_hash (fuel : nat) (rawData : string) :
  containsChar "#" rawData = false →
  ∃ r, fromRawData (S fuel) rawData = Some r
       ∧ match Uri_parse rawData with
         | Throw e => r = Throw e
         | Ok uri => r = parsed uri (_getIssuer uri) rawData
         end.
Proof.
  intros Hno. cbn [Auth.fromRawData].
  destruct (Uri_parse rawData) as [uri|e]; [|by eexists].
  destruct (parsed uri (_getIssuer uri) rawData) as [code|e] eqn:Hp;
    [by eexists|].
  rewrite Hno. by eexists.
Qed.

(** X18: [fromRawData] returns or throws after at most two attempts: a
    failed attempt is repeated once, on the text with every [#]
    escaped, and that text has no [#] left to ask for a third. *)
Theorem fromRawData_two_attempts (fuel : nat) (rawData : string) :
  ∃ r, fromRawData 2 rawData = Some r
       ∧ fromRawData (2 + fuel) rawData = Some r.
Proof.
  change (2 + fuel) with (S (S fuel)).
  cbn [Auth.fromRawData].
  destruct (Uri_parse rawData) as [uri|e]; [|by eexists].
  destruct (parsed uri (_getIssuer uri) rawData) as [code|e] eqn:Hp;
    [by eexists|].
  destruct (containsChar "#" rawData); [|by eexists].
  pose proof (escapeHash_no_hash rawData) as Hno.
  destruct (Uri_parse (escapeHash rawData)) as [uri'|e']; [|by eexists].
  destruct (parsed uri' (_getIssuer uri') (escapeHash rawData));
    [by eexists|].
  rewrite Hno. by eexists.
Qed.

(** What a successful [fromRawData] went through: the text the code
    keeps is the argument, or the argument with its [#] escaped after a
    failed first attempt, and the code is the one parsed from it. *)
Lemma fromRawData_inv (fuel : nat) (rawData : string) (code : Code) :
  fromRawData fuel rawData = Some (Ok code) →
  ∃ uri raw,
    (raw = rawData
     ∨ containsChar "#" rawData = true ∧ raw = escapeHash rawData
       ∧ ∀ uri0, Uri_parse rawData = Ok uri0 →
                 is_ok (parsed uri0 (_getIssuer uri0) rawData) = false)
    ∧ Uri_parse raw = Ok uri
    ∧ parsed uri (_getIssuer uri) raw = Ok code.
Proof.
  destruct fuel as [|fuel]; [done|].
  cbn [Auth.fromRawData].
  destruct (Uri_parse rawData) as [uri|e] eqn:Hu; [|done].
  destruct (parsed uri (_getIssuer uri) rawData) as [code'|e] eqn:Hp.
  { intros [= <-]. exists uri, rawData. by split_and!; [left|..]. }
  destruct (containsChar "#" rawData) eqn:Hh; [|done].
  intros Hrec.
  destruct fuel as [|fuel]; [done|].
  cbn [Auth.fromRawData] in Hrec.
  destruct (Uri_parse (escapeHash rawData)) as [uri'|e'] eqn:Hu'; [|done].
  destruct (parsed uri' (_getIssuer uri') (escapeHash rawData))
    as [code'|e'] eqn:Hp'.
  { injection Hrec as <-. exists uri', (escapeHash rawData).
    split_and!; [right; split_and!; [done..|]|done..].
    intros uri0 [= <-]. by rewrite Hp. }
  by rewrite escapeHash_no_hash in Hrec.
Qed.

Lemma parsed_inv (uri : Uri) (issuer raw : string) (code : Code) :
  parsed uri issuer raw = Ok code →
  ∃ secret type,
    queryParameters uri !! "secret" = Some secret
    ∧ _getType uri = Ok type
    ∧ code = Code_new (_getAccount uri) issuer (_getDigits uri issuer)
               (_getPeriod uri) (getSanitizedSecret secret)
               (_getAlgorithm uri) type (_getCounter uri) raw None.
Proof.
  unfold Auth.parsed.
  destruct (queryParameters uri !! "secret") as [secret|]; [|done].
  cbn. destruct (_getType uri) as [type|e]; [|done].
  cbn. intros [= <-]. by exists secret, type.
Qed.

Lemma _getType_inv (uri : Uri) (type : Type_) :
  _getType uri = Ok type → host uri = Type_name type.
Proof.
  unfold _getType.
  destruct (String.eqb_spec (host uri) "totp") as [->|_];
    [by intros [= <-]|].
  destruct (String.eqb_spec (host uri) "steam") as [->|_];
    [by intros [= <-]|].
  destruct (String.eqb_spec (host uri) "hotp") as [->|_];
    [by intros [= <-]|done].
Qed.

(** X19: The code [fromRawData] returns keeps the text it was parsed
    from, which is the argument or, after a first attempt that failed,
    the argument with its [#] escaped. That text has a [secret]
    parameter, whose sanitised value is the code's secret, and its host
    is the name of the code's type. The code has no generated id and no
    sync flag. *)
Theorem fromRawData_ok (fuel : nat) (rawData : string) (code : Code) :
  fromRawData fuel rawData = Some (Ok code) →
  (Auth.rawData code = rawData
   ∨ containsChar "#" rawData = true
     ∧ Auth.rawData code = escapeHash rawData)
  ∧ ∃ uri secret,
      Uri_parse (Auth.rawData code) = Ok uri
      ∧ queryParameters uri !! "secret" = Some secret
      ∧ Auth.secret code = getSanitizedSecret secret
      ∧ host uri = Type_name (type code)
      ∧ issuer code = _getIssuer uri
      ∧ account code = _getAccount uri
      ∧ generatedID code = None
      ∧ hasSynced code = None.
Proof.
  intros (uri & raw & Hraw & Hu & Hp)%fromRawData_inv.
  apply parsed_inv in Hp as (secret & type & Hs & Ht & ->).
  apply _getType_inv in Ht. cbn.
  split.
  - destruct Hraw as [->|(Hh & -> & _)]; [by left|by right].
  - exists uri, secret. by rewrite Hu.
Qed.

(** X20: The parameters a text leaves out take their defaults in the
    code [fromRawData] returns: the period is 30, the counter 0, the
    algorithm SHA-1, and the number of digits 5 for the issuer "steam"
    in any letter case and 6 for any other. A counter that is present
    but is not a number gives 30, the default period. *)
Theorem fromRawData_defaults (fuel : nat) (rawData : string) (code : Code)
    (uri : Uri) :
  fromRawData fuel rawData = Some (Ok code) →
  Uri_parse (Auth.rawData code) = Ok uri →
  (queryParameters uri !! "period" = None → period code = 30%Z)
  ∧ (queryParameters uri !! "counter" = None → counter code = 0%Z)
  ∧ (∀ text e, queryParameters uri !! "counter" = Some text →
               int_parse text = Throw e → counter code = 30%Z)
  ∧ (queryParameters uri !! "algorithm" = None → algorithm code = sha1)
  ∧ (queryParameters uri !! "digits" = None →
     digits code
     = if String.eqb (toLowerCase (issuer code)) "steam" then 5%Z else 6%Z).
Proof.
  intros (uri' & raw & _ & Hu & Hp)%fromRawData_inv.
  apply parsed_inv in Hp as (secret & type & _ & _ & ->). cbn.
  rewrite Hu. intros [= <-].
  split_and!.
  - intros Hn. unfold Auth._getPeriod. by rewrite Hn.
  - intros Hn. unfold Auth._getCounter. by rewrite Hn.
  - intros text e Hn He. unfold Auth._getCounter. by rewrite Hn, He.
  - intros Hn. unfold _getAlgorithm. by rewrite Hn.
  - intros Hn. unfold Auth._getDigits. by rewrite Hn.
Qed.

(** X21: A text with no [#] that parses as a URI is refused for a
    missing secret before its host is looked at: without a [secret]
    parameter the null check fails whatever the host is, and with one
    an unsupported host is the error. With a secret and one of the
    three hosts the text is accepted. *)
Theorem fromRawData_errors (fuel : nat) (rawData : string) (uri : Uri) :
  containsChar "#" rawData = false →
  Uri_parse rawData = Ok uri →
  (queryParameters uri !! "secret" = None →
   fromRawData (S fuel) rawData
   = Some (Throw "Null check operator used on a null value"))
  ∧ (is_Some (queryParameters uri !! "secret") →
     host uri ∉ ["totp"; "steam"; "hotp"] →
     fromRawData (S fuel) rawData
     = Some (Throw ("Unsupported format with host " +:+ host uri)))
  ∧ (is_Some (queryParameters uri !! "secret") →
     host uri ∈ ["totp"; "steam"; "hotp"] →
     ∃ code, fromRawData (S fuel) rawData = Some (Ok code)).
Proof.
  intros Hno Hu.
  destruct (fromRawData_no_hash fuel rawData Hno) as (r & -> & Hr).
  rewrite Hu in Hr. subst r. unfold Auth.parsed.
  split_and!.
  - by intros ->.
  - intros [secret ->] Hhost. cbn. unfold _getType.
    destruct (String.eqb_spec (host uri) "totp") as [Heq|_];
      [rewrite Heq in Hhost; set_solver|].
    destruct (String.eqb_spec (host uri) "steam") as [Heq|_];
      [rewrite Heq in Hhost; set_solver|].
    destruct (String.eqb_spec (host uri) "hotp") as [Heq|_];
      [rewrite Heq in Hhost; set_solver|].
    done.
  - intros [secret ->] Hhost. cbn. unfold _getType.
    destruct (String.eqb_spec (host uri) "totp") as [Heq|Hn1];
      [by eexists|].
    destruct (String.eqb_spec (host uri) "steam") as [Heq|Hn2];
      [by eexists|].
    destruct (String.eqb_spec (host uri) "hotp") as [Heq|Hn3];
      [by eexists|].
    set_solver.
Qed.

End FromRawDataFacts.

Lemma fromRawData_ok_witness :
  scripted_fromRawData 2 "otpauth://totp/ente:al#ice?secret=abc"
  = Some (Ok (Code_new "al#ice" "ente" 6 30 "abc" sha1 totp 0
                "otpauth://totp/ente:al%23ice?secret=abc" None))
  ∧ ∃ uri,
      scripted_Uri_parse "otpauth://totp/ente:al%23ice?secret=abc" = Ok uri
      ∧ queryParameters uri !! "secret" = Some "abc"
      ∧ host uri = "totp".
Proof.
  assert (scripted_fromRawData 2 "otpauth://totp/ente:al#ice?secret=abc"
          = Some (Ok (Code_new "al#ice" "ente" 6 30 "abc" sha1 totp 0
                        "otpauth://totp/ente:al%23ice?secret=abc" None)))
    as Hrun by (vm_compute; reflexivity).
  split; [exact Hrun|].
  destruct (fromRawData_ok _ _ _ _ _ _ _ Hrun)
    as (_ & uri & secret & Hu & Hs & Hsec & Hh & _).
  exists uri. cbn in Hu, Hsec, Hh. split_and!; [done| |done].
  rewrite Hs. f_equal. done.
Defined.

Lemma fromRawData_defaults_witness :
  ∃ code,
    scripted_fromRawData 1 "otpauth://totp/ente:alice?secret=abc&issuer=ente"
    = Some (Ok code)
    ∧ period code = 30%Z ∧ counter code = 0%Z ∧ algorithm code = sha1
    ∧ digits code = 6%Z.
Proof.
  eexists. 
  assert (scripted_fromRawData 1
            "otpauth://totp/ente:alice?secret=abc&issuer=ente"
          = Some (Ok (Code_new "alice" "ente" 6 30 "abc" sha1 totp 0
                   "otpauth://totp/ente:alice?secret=abc&issuer=ente" None)))
    as Hrun by (vm_compute; reflexivity).
  assert (scripted_Uri_parse
            "otpauth://totp/ente:alice?secret=abc&issuer=ente"
          = Ok {| host := "totp"; path := "/ente:alice";
                  queryParameters :=
                    {[ "secret" := "abc"; "issuer" := "ente" ]} |})
    as Hu by reflexivity.
  destruct (fromRawData_defaults _ _ _ _ _ _ _ _ Hrun Hu)
    as (Hp & Hc & _ & Ha & Hd).
  split_and!; [exact Hrun|by apply Hp|by apply Hc|by apply Ha|by apply Hd].
Defined.

Lemma fromRawData_errors_witness :
  scripted_fromRawData 1 "otpauth://yubi/ente:bob"
  = Some (Throw "Null check operator used on a null value")
  ∧ scripted_fromRawData 1 "otpauth://yubi/ente:bob?secret=abc"
    = Some (Throw "Unsupported format with host yubi").
Proof.
  split.
  - assert (scripted_Uri_parse "otpauth://yubi/ente:bob"
            = Ok {| host := "yubi"; path := "/ente:bob";
                    queryParameters := ∅ |}) as Hu by reflexivity.
    assert (containsChar "#" "otpauth://yubi/ente:bob" = false)
      as Hno by reflexivity.
    destruct (fromRawData_errors scripted_Uri_parse scripted_decodeComponent
                scripted_int_parse (fun secret => secret) 0 _ _ Hno Hu)
      as (Hnull & _ & _).
    by apply Hnull.
  - assert (scripted_Uri_parse "otpauth://yubi/ente:bob?secret=abc"
            = Ok {| host := "yubi"; path := "/ente:bob";
                    queryParameters := {[ "secret" := "abc" ]} |})
      as Hu by reflexivity.
    assert (containsChar "#" "otpauth://yubi/ente:bob?secret=abc" = false)
      as Hno by reflexivity.
    destruct (fromRawData_errors scripted_Uri_parse scripted_decodeComponent
                scripted_int_parse (fun secret => secret) 0 _ _ Hno Hu)
      as (_ & Hhost & _).
    apply Hhost; [by eexists|]. cbn. set_solver.
Defined.

Section CodeFacts.

Variable String_hashCode : string → Z.
Variable int_hashCode : Z → Z.
Variable Type_hashCode : Type_ → Z.

Abbreviation hashCode := (hashCode String_hashCode int_hashCode Type_hashCode).

Lemma Code_eq_spec (this other : Code) :
  Code_eq this other = true ↔
  account other = account this ∧ issuer other = issuer this
  ∧ digits other = digits this ∧ period other = period this
  ∧ secret other = secret this ∧ counter other = counter this
  ∧ type other = type this ∧ rawData other = rawData this.
Proof.
  unfold Code_eq. rewrite !andb_true_iff, !bool_decide_eq_true. tauto.
Qed.

(** X22: [==] and [hashCode] keep their contract: codes that are equal
    have the same hash code, whatever the hash codes of strings,
    integers and types are. *)
Theorem Code_eq_hashCode (this other : Code) :
  Code_eq this other = true → hashCode this = hashCode other.
Proof.
  intros (Ha & Hi & Hd & Hp & Hs & Hc & Ht & Hr)%Code_eq_spec.
  unfold Auth.hashCode. by rewrite Ha, Hi, Hd, Hp, Hs, Hc, Ht, Hr.
Qed.

End CodeFacts.

Lemma Code_eq_hashCode_witness :
  let this := fromAccountAndSecret totp "alice" "ente" "abc" 6 in
  let other :=
    {| generatedID := Some 7%Z; account := account this;
       issuer := issuer this; digits := digits this; period := period this;
       secret := secret this; algorithm := sha512; type := type this;
       rawData := rawData this; counter := counter this;
       hasSynced := Some true |} in
  this ≠ other
  ∧ hashCode (fun s => Z.of_nat (String.length s)) (fun n => n)
      (fun type => 0%Z) this
    = hashCode (fun s => Z.of_nat (String.length s)) (fun n => n)
        (fun type => 0%Z) other.
Proof.
  cbv zeta. split; [discriminate|].
  apply Code_eq_hashCode. reflexivity.
Defined.

(** X23: [==] is an equivalence on codes, and it does not look at the
    generated id, the algorithm or the sync flag: codes that differ
    only there are equal. *)
Theorem Code_eq_equivalence :
  (∀ this, Code_eq this this = true)
  ∧ (∀ this other, Code_eq this other = Code_eq other this)
  ∧ (∀ a b c, Code_eq a b = true → Code_eq b c = true → Code_eq a c = true)
  ∧ (∀ this generatedID algorithm hasSynced,
       Code_eq this
         {| generatedID := generatedID; account := account this;
            issuer := issuer this; digits := digits this;
            period := period this; secret := secret this;
            algorithm := algorithm; type := type this;
            rawData := rawData this; counter := counter this;
            hasSynced := hasSynced |} = true).
Proof.
  split_and!.
  - intros this. by apply Code_eq_spec.
  - intros this other. apply eq_true_iff_eq.
    rewrite !Code_eq_spec. naive_solver.
  - intros a b c. rewrite !Code_eq_spec. naive_solver congruence.
  - intros this generatedID algorithm hasSynced. by apply Code_eq_spec.
Qed.

(** X24: Two [copyWith] calls in a row are one: the second call's
    arguments win and the first call's fill in what it leaves out. So
    the text of a copy is a function of its fields alone, and a copy
    with no arguments of a copy is that copy. The generated id is
    carried along and the sync flag is dropped. *)
Theorem copyWith_copyWith (this : Code)
    (account1 issuer1 : option string) (digits1 period1 : option Z)
    (secret1 : option string) (algorithm1 : option Algorithm)
    (type1 : option Type_) (counter1 : option Z)
    (account2 issuer2 : option string) (digits2 period2 : option Z)
    (secret2 : option string) (algorithm2 : option Algorithm)
    (type2 : option Type_) (counter2 : option Z) :
  let first :=
    copyWith this account1 issuer1 digits1 period1 secret1 algorithm1 type1
      counter1 in
  copyWith first account2 issuer2 digits2 period2 secret2 algorithm2 type2
    counter2
  = copyWith this (account2 ∪ account1) (issuer2 ∪ issuer1)
      (digits2 ∪ digits1) (period2 ∪ period1) (secret2 ∪ secret1)
      (algorithm2 ∪ algorithm1) (type2 ∪ type1) (counter2 ∪ counter1)
  ∧ copyWith first None None None None None None None None = first
  ∧ generatedID first = generatedID this
  ∧ hasSynced first = None.
Proof.
  cbv zeta. split_and!; [|done..].
  destruct account1, account2, issuer1, issuer2, digits1, digits2, period1,
    period2, secret1, secret2; try reflexivity;
    destruct algorithm1, algorithm2, type1, type2, counter1, counter2;
    reflexivity.
Qed.

End AuthFacts.
